(** * imagecube: metadata resolution, flux calibration and stage bookkeeping

    A shallow embedding of [imagecube.py].  FITS headers are finite maps from
    keyword to card, Python exceptions are an error monad, and floating point
    numbers are idealised as canonical rationals ([Qc]), so that every
    definition below can be evaluated. *)

From Stdlib Require Import QArith Qcanon Qround Qpower Ascii.
From stdpp Require Import base option list gmap strings numbers sorting.

Set Warnings "-register-all".

Local Open Scope string_scope.
Local Open Scope Qc_scope.

(** ** Python values and exceptions *)

(** The exceptions the modelled code can raise.  [SystemExit] is what
    [sys.exit()] raises. *)
Inductive pyexn : Type :=
  | KeyError (key : string)
  | TypeError
  | ValueError
  | AttributeError
  | IndexError
  | IOError
  | ZeroDivisionError
  | SystemExit.

Inductive result (A : Type) : Type :=
  | Ok (a : A)
  | Raise (e : pyexn).
Arguments Ok {A} a.
Arguments Raise {A} e.

Global Instance result_ret : MRet result := λ A a, Ok a.
Global Instance result_bind : MBind result := λ A B f r,
  match r with
  | Ok a => f a
  | Raise e => Raise e
  end.

Global Instance result_fmap : FMap result := λ A B f r,
  match r with
  | Ok a => Ok (f a)
  | Raise e => Raise e
  end.

(** The value of a header card: a character string or a number. *)
Inductive value : Type :=
  | VStr (s : string)
  | VNum (q : Qc).

Global Instance value_eq_dec : EqDecision value.
Proof. solve_decision. Defined.

Definition value_to_sum (v : value) : string + Qc :=
  match v with VStr s => inl s | VNum q => inr q end.
Definition value_of_sum (x : string + Qc) : value :=
  match x with inl s => VStr s | inr q => VNum q end.

Global Instance value_countable : Countable value.
Proof.
  refine (inj_countable' value_to_sum value_of_sum _).
  intros []; reflexivity.
Defined.

(** Decimal literals are read as rationals and put in canonical form. *)
Definition qc (q : Q) : Qc := Q2Qc q.

(** ** FITS headers *)

(** A card holds a value and its comment. *)
Definition card : Type := value * string.

Abbreviation fits_header := (gmap string card).

(** [key in header] *)
Definition contains (key : string) (header : fits_header) : bool :=
  bool_decide (is_Some (header !! key)).

(** [header[key]] *)
Definition getitem (header : fits_header) (key : string) : result value :=
  match header !! key with
  | Some c => Ok (fst c)
  | None => Raise (KeyError key)
  end.

(** [header.comments[key]] *)
Definition getcomment (header : fits_header) (key : string) : result string :=
  match header !! key with
  | Some c => Ok (snd c)
  | None => Raise (KeyError key)
  end.

(** [header[key] = v]: the value is replaced, the comment of an existing card
    is kept. *)
Definition setitem (header : fits_header) (key : string) (v : value)
  : fits_header :=
  <[key := (v, default "" (snd <$> header !! key))]> header.

(** [header[key] = (v, comment)] *)
Definition setcard (header : fits_header) (key : string) (v : value)
    (comment : string) : fits_header :=
  <[key := (v, comment)]> header.

(** [needle in hay] on a card value: substring test on strings, a
    [TypeError] on numbers. *)
Definition str_in (needle : string) (hay : value) : result bool :=
  match hay with
  | VStr s => Ok (bool_decide (is_Some (String.index 0 needle s)))
  | VNum _ => Raise TypeError
  end.

(** ** Metadata resolver *)

Definition get_instrument (header : fits_header) : result value :=
  if contains "INSTRUME" header then
    getitem header "INSTRUME"
  else if contains "INF0001" header then
    v ← getitem header "INF0001";
    b ← str_in "galex" v;
    if b : bool then Ok (VStr "GALEX") else Ok (VStr "")
  else if contains "ORIGIN" header then
    v ← getitem header "ORIGIN";
    b ← str_in "2MASS" v;
    if b : bool then Ok (VStr "2MASS") else Ok (VStr "")
  else
    Raise SystemExit.

(** ASCII lower-casing, as [str.lower] does on byte strings. *)
Definition ascii_lower (c : ascii) : ascii :=
  let n := nat_of_ascii c in
  if ((65 <=? n) && (n <=? 90))%nat then ascii_of_nat (n + 32) else c.

Fixpoint str_lower (s : string) : string :=
  match s with
  | EmptyString => EmptyString
  | String c s' => String (ascii_lower c) (str_lower s')
  end.

(** [v.lower()]: numbers have no such method. *)
Definition py_lower (v : value) : result string :=
  match v with
  | VStr s => Ok (str_lower s)
  | VNum _ => Raise AttributeError
  end.

(** Arithmetic on a card value: a string operand is a [TypeError]. *)
Definition as_num (v : value) : result Qc :=
  match v with
  | VNum q => Ok q
  | VStr _ => Raise TypeError
  end.

Definition Qcabs (q : Qc) : Qc := if decide (q < 0) then - q else q.

(** [abs(v)] *)
Definition py_abs (v : value) : result Qc := Qcabs <$> as_num v.

(** The two operations of Python floats that have no rational counterpart
    are taken from the environment: [float(s)] on a string ([None] stands
    for [ValueError]) and the power [b ** x] with a fractional exponent. *)
Class PyFloat : Type := {
  float_of_str : string → option Qc;
  py_pow : Qc → Qc → Qc
}.

(** [astropy.units]: the names under which the registry knows a unit, and
    the scale factors of the conversions the pipeline asks for.

    [u.micron] is a unit of its own, defined as equal to [u.um]; it has the
    one name micron, while the micrometre has the names um and micrometer.
    The lists hold the ASCII names.  A unit string reaches the pipeline from
    a header comment or from a literal of the script, and is a byte string:
    it equals no name that is spelled with a character outside ASCII. *)
Definition micron_names : list string := ["micron"].
Definition um_names : list string := ["um"; "micrometer"].
Definition angstrom_names : list string := ["AA"; "Angstrom"; "angstrom"].

Definition angstrom_to_micron (x : Qc) : Qc := x * qc 1e-4.
Definition deg_to_arcsec (x : Qc) : Qc := x * qc 3600.

(** [unit.to(other, v)] on a value that was not made a number first: a
    number is multiplied by the scale of the conversion, a string is refused
    with [ValueError]. *)
Definition unit_to (scale : Qc) (v : value) : result Qc :=
  match v with
  | VNum x => Ok (x * scale)
  | VStr _ => Raise ValueError
  end.

(** The scale of [u.um.to(u.angstrom, _)].  The registry defines the
    angstrom as 0.1 nm and divides the two scales as doubles: the quotient
    is the double that prints as 9999.999999999998, written out in full
    below, and not 10^4.  The difference is kept here, because the pipeline
    compares the converted wavelength with a threshold: 0.2 micron is
    converted to a value just below 2000. *)
Definition UM_TO_ANGSTROM : Qc :=
  qc 9999.999999999998181010596454143524169921875.
Definition um_to_angstrom (v : value) : result Qc := unit_to UM_TO_ANGSTROM v.

(** ** Code constants *)

Definition NYQUIST_SAMPLING_RATE : Qc := qc 3.3.
Definition MJY_PER_SR_TO_JY_PER_PIXEL : Qc := qc 2.3504e-5.
Definition FUV_LAMBDA_CON : Qc := qc 1.40e-15.
Definition NUV_LAMBDA_CON : Qc := qc 2.06e-16.
Definition FVEGA_J : Qc := qc 1594.
Definition FVEGA_H : Qc := qc 1024.
Definition FVEGA_KS : Qc := qc 666.7.
Definition WAVELENGTH_2MASS_J : Qc := qc 1.2409.
Definition WAVELENGTH_2MASS_H : Qc := qc 1.6514.
Definition WAVELENGTH_2MASS_KS : Qc := qc 2.1656.
(** One jansky is 1e-23 erg/s/cm^2/Hz; the constant is the inverse. *)
Definition JY_CONVERSION : Qc := qc 1e23.
Definition S250_BEAM_AREA : Qc := qc 423.
Definition S350_BEAM_AREA : Qc := qc 751.
Definition S500_BEAM_AREA : Qc := qc 1587.
(** [constants.c.to('angstrom/s').value] *)
Definition c_angstrom_per_s : Qc := qc 2.99792458e18.

Section resolver.
Context `{PyFloat}.

(** [float(v)] *)
Definition py_float (v : value) : result Qc :=
  match v with
  | VNum q => Ok q
  | VStr s =>
      match float_of_str s with
      | Some q => Ok q
      | None => Raise ValueError
      end
  end.

Definition wavelength_to_microns (wavelength : value) (unit : string)
  : result Qc :=
  if bool_decide (unit ∈ micron_names) || bool_decide (unit ∈ um_names) then
    py_float wavelength
  else if bool_decide (unit ∈ angstrom_names) then
    angstrom_to_micron <$> py_float wavelength
  else
    Ok 1.

Definition get_native_pixelscale (header : fits_header) (instrument : value)
  : result value :=
  if bool_decide (instrument = VStr "IRAC") then
    p ← getitem header "PXSCAL1";
    VNum <$> py_abs p
  else if bool_decide (instrument = VStr "MIPS") then
    getitem header "PLTSCALE"
  else if bool_decide (instrument = VStr "SPIRE") then
    d ← getitem header "CDELT2";
    a ← py_abs d;
    Ok (VNum (deg_to_arcsec a))
  else if contains "CDELT2" header then
    d ← getitem header "CDELT2";
    a ← py_abs d;
    Ok (VNum (deg_to_arcsec a))
  else
    Ok (VNum 0).

(** The GALEX calibration constant chosen for a wavelength in angstrom. *)
Definition f_lambda_con (wavelength : Qc) : Qc :=
  if decide (wavelength < qc 2000) then FUV_LAMBDA_CON else NUV_LAMBDA_CON.

(** The Vega flux chosen for a 2MASS [FILTER] value. *)
Definition fvega (filter : value) : Qc :=
  if bool_decide (filter = VStr "j") then FVEGA_J
  else if bool_decide (filter = VStr "h") then FVEGA_H
  else if bool_decide (filter = VStr "k") then FVEGA_KS
  else 0.

Definition get_conversion_factor (header : fits_header) (instrument : value)
  : result Qc :=
  if bool_decide (instrument = VStr "IRAC") then
    pixelscale ← get_native_pixelscale header (VStr "IRAC");
    p ← as_num pixelscale;
    Ok (MJY_PER_SR_TO_JY_PER_PIXEL * p ^ 2)
  else if bool_decide (instrument = VStr "MIPS") then
    pixelscale ← get_native_pixelscale header (VStr "MIPS");
    p ← as_num pixelscale;
    Ok (MJY_PER_SR_TO_JY_PER_PIXEL * p ^ 2)
  else if bool_decide (instrument = VStr "GALEX") then
    w ← getitem header "WAVELENG";
    wavelength ← um_to_angstrom w;
    Ok (JY_CONVERSION * f_lambda_con wavelength * wavelength ^ 2
        / c_angstrom_per_s)
  else if bool_decide (instrument = VStr "2MASS") then
    filter ← getitem header "FILTER";
    m ← getitem header "MAGZP";
    magzp ← as_num m;
    Ok (fvega filter * py_pow (qc 10) (- qc 0.4 * magzp))
  else if bool_decide (instrument = VStr "PACS") then
    _ ← (if contains "BUNIT" header then
           b ← getitem header "BUNIT"; _ ← py_lower b; Ok ()
         else Ok ());
    Ok 1
  else if bool_decide (instrument = VStr "SPIRE") then
    pixelscale ← get_native_pixelscale header (VStr "SPIRE");
    wavelength ← getitem header "WAVELENG";
    if bool_decide (wavelength = VNum (qc 250)) then
      p ← as_num pixelscale; Ok (p ^ 2 / S250_BEAM_AREA)
    else if bool_decide (wavelength = VNum (qc 350)) then
      p ← as_num pixelscale; Ok (p ^ 2 / S350_BEAM_AREA)
    else if bool_decide (wavelength = VNum (qc 500)) then
      p ← as_num pixelscale; Ok (p ^ 2 / S500_BEAM_AREA)
    else Ok 0
  else
    Ok 0.

Definition get_wavelength (header : fits_header) : result (value * string) :=
  if contains "WAVELENG" header then
    wavelength ← getitem header "WAVELENG";
    wavelength_units ← getcomment header "WAVELENG";
    Ok (wavelength, wavelength_units)
  else if contains "WAVELNTH" header then
    wavelength ← getitem header "WAVELNTH";
    Ok (wavelength, "micron")
  else if contains "FILTER" header then
    filter ← getitem header "FILTER";
    instrument ← get_instrument header;
    if bool_decide (instrument = VStr "2MASS") then
      low ← py_lower filter;
      if bool_decide (low = "j") then Ok (VNum WAVELENGTH_2MASS_J, "micron")
      else if bool_decide (low = "h") then
        Ok (VNum WAVELENGTH_2MASS_H, "micron")
      else if bool_decide (low = "k") then
        Ok (VNum WAVELENGTH_2MASS_KS, "micron")
      else Ok (filter, "micron")
    else Ok (filter, "micron")
  else
    Ok (VNum 0, "").

End resolver.

(** ** The working image collection *)

(** Pixel data of any dimension, as nested sequences. *)
Inductive ndarray : Type :=
  | Scalar (q : Qc)
  | Array (items : list ndarray).

(** File names are kept as their sequence of path components. *)
Abbreviation path := (list string).

(** One entry of [images_with_headers]: the tuple
    [(image_data, header, filename)]. *)
Record image : Type := Image {
  img_data : ndarray;
  img_header : fits_header;
  img_filename : path
}.

(** ** Resolution convolver: the common FWHM *)

(** Python 2 orders every number before every string. *)
Definition value_ge_num (v : value) (q : Qc) : bool :=
  match v with
  | VNum x => bool_decide (q ≤ x)
  | VStr _ => true
  end.

Definition value_le_num (v : value) (q : Qc) : bool :=
  match v with
  | VNum x => bool_decide (x ≤ q)
  | VStr _ => false
  end.

Definition wavelength_range (wavelengths : list value) (lower upper : Qc)
  : bool :=
  foldl (λ return_value i,
           if value_ge_num i lower && value_le_num i upper then true
           else return_value)
        false wavelengths.

(** The dictionary from instrument to the wavelengths seen for it. *)
Definition add_wavelength (d : gmap value (list value))
    (instrument wavelength : value) : gmap value (list value) :=
  match d !! instrument with
  | Some ws => <[instrument := (ws ++ [wavelength])%list]> d
  | None => <[instrument := [wavelength]]> d
  end.

Fixpoint instruments_with_wavelengths (images : list image)
    (d : gmap value (list value)) : result (gmap value (list value)) :=
  match images with
  | [] => Ok d
  | img :: rest =>
      instrument ← get_instrument (img_header img);
      w ← get_wavelength (img_header img);
      instruments_with_wavelengths rest (add_wavelength d instrument w.1)
  end.

(** [name in d and wavelength_range(d[name], lower, upper)] *)
Definition band (d : gmap value (list value)) (name : string)
    (lower upper : Qc) : bool :=
  match d !! VStr name with
  | Some ws => wavelength_range ws lower upper
  | None => false
  end.

(** The ordered table of [get_fwhm_value]. *)
Definition fwhm_of (d : gmap value (list value)) : Qc :=
  if band d "MIPS" (qc 140) (qc 170) then qc 76
  else if band d "SPIRE" (qc 490) (qc 510) then qc 43
  else if band d "MIPS" (qc 50) (qc 90) then qc 37
  else if band d "SPIRE" (qc 300) (qc 400) then qc 30
  else if band d "SPIRE" (qc 200) (qc 299) then qc 22
  else if band d "PACS" (qc 140) (qc 180) then qc 18
  else if band d "MIPS" (qc 18) (qc 30) then qc 13
  else if band d "PACS" (qc 90) (qc 110) then qc 12.5
  else if band d "PACS" (qc 60) (qc 80) then qc 10.5
  else 0.

Definition get_fwhm_value (images_with_headers : list image) : result Qc :=
  fwhm_of <$> instruments_with_wavelengths images_with_headers ∅.

(** ** Reference sky position *)

(** What [numpy.mean] returns: a number, or [nan] for an empty sequence. *)
Inductive npfloat : Type :=
  | Finite (q : Qc)
  | NaN.

Fixpoint as_nums (vs : list value) : result (list Qc) :=
  match vs with
  | [] => Ok []
  | v :: rest => q ← as_num v; (q ::.) <$> as_nums rest
  end.

Definition np_mean (values : list value) : result npfloat :=
  qs ← as_nums values;
  match qs with
  | [] => Ok NaN
  | _ => Ok (Finite (foldr Qcplus 0 qs / Qc_of_Z (Z.of_nat (length qs))))
  end.

Fixpoint herschel_values (images : list image) (keyword : string)
  : result (list value) :=
  match images with
  | [] => Ok []
  | img :: rest =>
      instrument ← get_instrument (img_header img);
      if bool_decide (instrument = VStr "PACS")
         || bool_decide (instrument = VStr "SPIRE") then
        v ← getitem (img_header img) keyword;
        (v ::.) <$> herschel_values rest keyword
      else herschel_values rest keyword
  end.

Definition get_herschel_mean (images_with_headers : list image)
    (keyword : string) : result npfloat :=
  values ← herschel_values images_with_headers keyword;
  np_mean values.

(** [ra_input] and [dec_input] are the empty string unless the command line
    gave them: [None] stands for the empty string. *)
Definition reference_coordinate (input : option Qc)
    (images_with_headers : list image) (keyword : string) : result npfloat :=
  match input with
  | Some x => Ok (Finite x)
  | None => get_herschel_mean images_with_headers keyword
  end.

(** ** Files, external services and the state of a run *)

(** One header-data unit of a FITS file. *)
Record hdu : Type := Hdu {
  hdu_data : ndarray;
  hdu_header : fits_header
}.

(** What a path of the file system holds. *)
Inductive node : Type :=
  | Dir
  | FitsFile (hdulist : list hdu).

(** The calls that leave the process, in the order they are made. *)
Inductive io_event : Type :=
  | Makedirs (p : path)
  | Rmtree (p : path)
  | ReadFits (p : path)
  | WriteFits (p : path)
  | Mkpattern (output : path) (ncols nlines : Qc)
  | Ccsetwcs (images : path) (xref yref xmag ymag : Qc)
      (lngref latref : npfloat)
  | Wregister (input reference output : path) (fluxconserve : bool)
  | SaveTxt (p : path).

Record state : Type := State {
  fs : gmap path node;
  converted_data : list ndarray;
  log : list io_event
}.

(** The IRAF tasks and the astropy convolution routines are used as black
    boxes: what they compute is a parameter of the development, and [None]
    is the failure of a task.  [fwhm_to_sigma] is the float
    [2 * math.sqrt(2 * math.log(2))]. *)
Class Services : Type := {
  mkpattern : Qc → Qc → option (list hdu);
  ccsetwcs : list hdu → Qc → Qc → Qc → Qc → npfloat → npfloat
             → option (list hdu);
  wregister : list hdu → list hdu → bool → option (list hdu);
  make_kernel : Qc → ndarray;
  convolve : ndarray → ndarray → ndarray;
  fwhm_to_sigma : Qc
}.

Definition emit (e : io_event) (st : state) : state :=
  State (fs st) (converted_data st) (log st ++ [e]).

Definition set_fs (f : gmap path node) (st : state) : state :=
  State f (converted_data st) (log st).

(** [os.path.basename] and [os.path.dirname] on component sequences. *)
Definition basename (p : path) : string := List.last p "".
Definition dirname (p : path) : path := removelast p.

(** [os.path.exists] and [os.path.isdir] *)
Definition path_exists (st : state) (p : path) : bool :=
  bool_decide (is_Some (fs st !! p)).
Definition isdir (st : state) (p : path) : bool :=
  match fs st !! p with
  | Some Dir => true
  | _ => false
  end.

(** [os.makedirs]: the directory and its missing ancestors are created. *)
Fixpoint add_dirs (prefix : path) (rest : path) (f : gmap path node)
  : gmap path node :=
  match rest with
  | [] => f
  | d :: rest' =>
      let here := (prefix ++ [d])%list in
      add_dirs here rest'
        (match f !! here with Some _ => f | None => <[here := Dir]> f end)
  end.

Definition makedirs (p : path) (st : state) : state :=
  emit (Makedirs p) (set_fs (add_dirs [] p (fs st)) st).

(** [if not os.path.exists(d): os.makedirs(d)] *)
Definition ensure_dir (d : path) (st : state) : state :=
  if path_exists st d then st else makedirs d st.

(** [shutil.rmtree]: the directory goes with everything below it. *)
Definition rmtree (p : path) (st : state) : state :=
  emit (Rmtree p)
    (set_fs (filter (λ kv, ¬ p `prefix_of` kv.1) (fs st)) st).

(** [fits.open(p)] followed by reading the list *)
Definition fits_open (p : path) (st : state) : result (list hdu * state) :=
  match fs st !! p with
  | Some (FitsFile hdulist) => Ok (hdulist, emit (ReadFits p) st)
  | _ => Raise IOError
  end.

(** [writeto(p, clobber=True)] *)
Definition fits_writeto (p : path) (hdulist : list hdu) (st : state) : state :=
  emit (WriteFits p) (set_fs (<[p := FitsFile hdulist]> (fs st)) st).

(** [l[i]] *)
Definition index {A} (l : list A) (i : nat) : result A :=
  match l !! i with
  | Some x => Ok x
  | None => Raise IndexError
  end.

(** Multiplication of an array by a scalar. *)
Fixpoint scale (c : Qc) (a : ndarray) : ndarray :=
  match a with
  | Scalar q => Scalar (q * c)
  | Array items => Array (map (scale c) items)
  end.

(** The name of a stage artifact:
    [dirname + "/" + subdir + "/" + basename + suffix]. *)
Definition stage_filename (subdir suffix : string) (filename : path) : path :=
  (dirname filename ++ [subdir; basename filename +:+ suffix])%list.
Definition stage_directory (subdir : string) (filename : path) : path :=
  (dirname filename ++ [subdir])%list.

(** ** Flux conversion stage *)

Section stages.
Context `{PyFloat} `{Services}.

(** The body of the loop of [convert_images] for one image. *)
Definition convert_image (img : image) (st : state) : result (image * state) :=
  instrument ← get_instrument (img_header img);
  conversion_factor ← get_conversion_factor (img_header img) instrument;
  let new_directory := stage_directory "converted" (img_filename img) in
  let converted_filename :=
    stage_filename "converted" "_converted.fits" (img_filename img) in
  let st := ensure_dir new_directory st in
  let converted_data_array := scale conversion_factor (img_data img) in
  let st := State (fs st) (converted_data st ++ [converted_data_array])
                  (log st) in
  let header := setitem (img_header img) "BUNIT" (VStr "Jy/pixel") in
  let header :=
    setcard header "JYPXFACT" (VNum conversion_factor)
      "Factor to convert original BUNIT into Jy/pixel." in
  let st := fits_writeto converted_filename
              [Hdu converted_data_array header] st in
  Ok (Image (img_data img) header (img_filename img), st).

Fixpoint convert_images (images_with_headers : list image) (st : state)
  : result (list image * state) :=
  match images_with_headers with
  | [] => Ok ([], st)
  | img :: rest =>
      '(img', st) ← convert_image img st;
      '(rest', st) ← convert_images rest st;
      Ok (img' :: rest', st)
  end.

(** ** Registration stage *)

(** True division of floats. *)
Definition py_div (a b : Qc) : result Qc :=
  if decide (b = 0) then Raise ZeroDivisionError else Ok (a / b).

(** The parameters of a run, as the command line leaves them in the module
    globals.  [None] stands for the empty string a global starts with. *)
Record config : Type := Config {
  directory : path;
  phys_size : option Qc;
  ra_input : option Qc;
  dec_input : option Qc;
  do_conversion : bool;
  do_registration : bool;
  do_convolution : bool;
  do_resampling : bool;
  do_seds : bool;
  do_cleanup : bool
}.

(** [phys_size] as an operand of a division: the empty string is a
    [TypeError]. *)
Definition phys_size_num (cfg : config) : result Qc :=
  match phys_size cfg with
  | Some x => Ok x
  | None => Raise TypeError
  end.

(** The three IRAF tasks, acting on the files of the state. *)
Definition iraf_mkpattern (output : path) (ncols nlines : Qc) (st : state)
  : result state :=
  match mkpattern ncols nlines with
  | Some grid =>
      Ok (emit (Mkpattern output ncols nlines)
            (set_fs (<[output := FitsFile grid]> (fs st)) st))
  | None => Raise IOError
  end.

Definition iraf_ccsetwcs (images : path) (xref yref xmag ymag : Qc)
    (lngref latref : npfloat) (st : state) : result state :=
  match fs st !! images with
  | Some (FitsFile grid) =>
      match ccsetwcs grid xref yref xmag ymag lngref latref with
      | Some grid' =>
          Ok (emit (Ccsetwcs images xref yref xmag ymag lngref latref)
                (set_fs (<[images := FitsFile grid']> (fs st)) st))
      | None => Raise IOError
      end
  | _ => Raise IOError
  end.

Definition iraf_wregister (input reference output : path)
    (fluxconserve : bool) (st : state) : result state :=
  match fs st !! input, fs st !! reference with
  | Some (FitsFile science), Some (FitsFile grid) =>
      match wregister science grid fluxconserve with
      | Some registered =>
          Ok (emit (Wregister input reference output fluxconserve)
                (set_fs (<[output := FitsFile registered]> (fs st)) st))
      | None => Raise IOError
      end
  | _, _ => Raise IOError
  end.

(** The body of the loop of [register_images] for one image. *)
Definition register_image (cfg : config) (lngref_input latref_input : npfloat)
    (img : image) (st : state) : result state :=
  instrument ← get_instrument (img_header img);
  pixelscale ← get_native_pixelscale (img_header img) instrument;
  _ ← getitem (img_header img) "BUNIT";
  let new_directory := stage_directory "registered" (img_filename img) in
  let artificial_filename :=
    stage_filename "registered" "_pixelgrid.fits" (img_filename img) in
  let registered_filename :=
    stage_filename "registered" "_registered.fits" (img_filename img) in
  let input_filename :=
    stage_filename "converted" "_converted.fits" (img_filename img) in
  let st := ensure_dir new_directory st in
  size ← phys_size_num cfg;
  native_pixelscale ← as_num pixelscale;
  ncols ← py_div size native_pixelscale;
  st ← iraf_mkpattern artificial_filename ncols ncols st;
  st ← iraf_ccsetwcs artificial_filename (ncols / qc 2) (ncols / qc 2)
         native_pixelscale native_pixelscale lngref_input latref_input st;
  iraf_wregister input_filename artificial_filename registered_filename
    false st.

Fixpoint register_loop (cfg : config) (lngref_input latref_input : npfloat)
    (images : list image) (st : state) : result state :=
  match images with
  | [] => Ok st
  | img :: rest =>
      st ← register_image cfg lngref_input latref_input img st;
      register_loop cfg lngref_input latref_input rest st
  end.

Definition register_images (cfg : config) (images_with_headers : list image)
    (st : state) : result state :=
  lngref_input ←
    reference_coordinate (ra_input cfg) images_with_headers "CRVAL1";
  latref_input ←
    reference_coordinate (dec_input cfg) images_with_headers "CRVAL2";
  register_loop cfg lngref_input latref_input images_with_headers st.

(** ** Convolution stage *)

Definition convolve_image (fwhm_input : Qc) (img : image) (st : state)
  : result state :=
  instrument ← get_instrument (img_header img);
  pixelscale ← get_native_pixelscale (img_header img) instrument;
  native_pixelscale ← as_num pixelscale;
  sigma_input ← py_div fwhm_input (fwhm_to_sigma * native_pixelscale);
  let new_directory := stage_directory "convolved" (img_filename img) in
  let convolved_filename :=
    stage_filename "convolved" "_convolved.fits" (img_filename img) in
  let input_filename :=
    stage_filename "registered" "_registered.fits" (img_filename img) in
  let st := ensure_dir new_directory st in
  '(hdulist, st) ← fits_open input_filename st;
  primary ← index hdulist 0;
  let gaus_kernel_inp := make_kernel sigma_input in
  let conv_result := convolve (hdu_data primary) gaus_kernel_inp in
  let header :=
    setcard (hdu_header primary) "FWHM" (VNum fwhm_input)
      "The FWHM value used in the convolution step." in
  Ok (fits_writeto convolved_filename [Hdu conv_result header] st).

Fixpoint convolve_loop (fwhm_input : Qc) (images : list image) (st : state)
  : result state :=
  match images with
  | [] => Ok st
  | img :: rest =>
      st ← convolve_image fwhm_input img st;
      convolve_loop fwhm_input rest st
  end.

Definition convolve_images (images_with_headers : list image) (st : state)
  : result state :=
  fwhm_input ← get_fwhm_value images_with_headers;
  convolve_loop fwhm_input images_with_headers st.

(** ** Resampling stage and data cube *)

Fixpoint read_resampled (images : list image) (st : state)
  : result (list hdu * state) :=
  match images with
  | [] => Ok ([], st)
  | img :: rest =>
      let resampled_filename :=
        stage_filename "resampled" "_resampled.fits" (img_filename img) in
      '(hdulist, st) ← fits_open resampled_filename st;
      primary ← index hdulist 0;
      '(others, st) ← read_resampled rest st;
      Ok (primary :: others, st)
  end.

Definition create_data_cube (cfg : config) (images_with_headers : list image)
    (st : state) : result state :=
  let new_directory := (directory cfg ++ ["datacube"])%list in
  let st := ensure_dir new_directory st in
  '(resampled, st) ← read_resampled images_with_headers st;
  first ← index resampled 0;
  Ok (fits_writeto (new_directory ++ ["datacube.fits"])%list
        [Hdu (Array (hdu_data <$> resampled)) (hdu_header first)] st).

Definition grid_final_resample : path := ["grid_final_resample.fits"].

Definition resample_image (img : image) (st : state) : result state :=
  let new_directory := stage_directory "resampled" (img_filename img) in
  let resampled_filename :=
    stage_filename "resampled" "_resampled.fits" (img_filename img) in
  let input_filename :=
    stage_filename "convolved" "_convolved.fits" (img_filename img) in
  let st := ensure_dir new_directory st in
  iraf_wregister input_filename grid_final_resample resampled_filename
    true st.

Fixpoint resample_loop (images : list image) (st : state) : result state :=
  match images with
  | [] => Ok st
  | img :: rest => st ← resample_image img st; resample_loop rest st
  end.

Definition resample_images (cfg : config) (images_with_headers : list image)
    (st : state) : result state :=
  fwhm_input ← get_fwhm_value images_with_headers;
  size ← phys_size_num cfg;
  parameter1 ← py_div size (fwhm_input / NYQUIST_SAMPLING_RATE);
  st ← iraf_mkpattern grid_final_resample parameter1 parameter1 st;
  lngref_input ←
    reference_coordinate (ra_input cfg) images_with_headers "CRVAL1";
  latref_input ←
    reference_coordinate (dec_input cfg) images_with_headers "CRVAL2";
  st ← iraf_ccsetwcs grid_final_resample (parameter1 / qc 2)
         (parameter1 / qc 2) (fwhm_input / NYQUIST_SAMPLING_RATE)
         (fwhm_input / NYQUIST_SAMPLING_RATE) lngref_input latref_input st;
  st ← resample_loop images_with_headers st;
  create_data_cube cfg images_with_headers st.

(** ** SED stage *)

(** One tuple of [sed_data]: [(x, y, wavelength, flux)]. *)
Definition sed_row : Type := nat * nat * value * Qc.

Fixpoint seds_read (images : list image) (st : state)
  : result (list value * list ndarray * state) :=
  match images with
  | [] => Ok ([], [], st)
  | img :: rest =>
      let new_directory := stage_directory "seds" (img_filename img) in
      let input_filename :=
        stage_filename "resampled" "_resampled.fits" (img_filename img) in
      w ← get_wavelength (img_header img);
      let st := ensure_dir new_directory st in
      '(hdulist, st) ← fits_open input_filename st;
      primary ← index hdulist 0;
      '(wavelengths, all_image_data, st) ← seds_read rest st;
      Ok (w.1 :: wavelengths, hdu_data primary :: all_image_data, st)
  end.

(** The rows of one line [j] of an image: a line is a sequence of pixel
    values; anything else has no [len] or no scalar entries. *)
Fixpoint line_rows (j k : nat) (wavelength : value) (line : list ndarray)
  : result (list sed_row) :=
  match line with
  | [] => Ok []
  | Scalar q :: rest =>
      ((j, k, wavelength, q) ::.) <$> line_rows j (S k) wavelength rest
  | Array _ :: _ => Raise TypeError
  end.

Fixpoint image_rows (j : nat) (wavelength : value) (lines : list ndarray)
  : result (list sed_row) :=
  match lines with
  | [] => Ok []
  | Array line :: rest =>
      here ← line_rows j 0 wavelength line;
      (here ++.)%list <$> image_rows (S j) wavelength rest
  | Scalar _ :: _ => Raise TypeError
  end.

Fixpoint sed_rows (wavelengths : list value) (all_image_data : list ndarray)
  : result (list sed_row) :=
  match wavelengths, all_image_data with
  | w :: ws, Array lines :: rest =>
      here ← image_rows 0 w lines;
      (here ++.)%list <$> sed_rows ws rest
  | _ :: _, Scalar _ :: _ => Raise TypeError
  | _, _ => Ok []
  end.

(** ** Sorting *)

(** The order Python 2 puts on card values: numbers by size, strings by
    character code, every number before every string. *)
Definition value_le (a b : value) : bool :=
  match a, b with
  | VNum x, VNum y => bool_decide (x ≤ y)
  | VNum _, VStr _ => true
  | VStr _, VNum _ => false
  | VStr x, VStr y => String.leb x y
  end.

(** [sorted] is stable: an element is placed before the first one that is
    not smaller, so equal elements keep their order. *)
Fixpoint insert_sorted {A} (le : A → A → bool) (x : A) (l : list A) : list A :=
  match l with
  | [] => [x]
  | y :: l' => if le x y then x :: l else y :: insert_sorted le x l'
  end.

Definition py_sorted {A} (le : A → A → bool) (l : list A) : list A :=
  foldr (insert_sorted le) [] l.

(** [sorted(l, key=...)] with a key that can raise. *)
Fixpoint with_keys {A} (key : A → result value) (l : list A)
  : result (list (value * A)) :=
  match l with
  | [] => Ok []
  | x :: rest => k ← key x; ((k, x) ::.) <$> with_keys key rest
  end.

Definition py_sorted_by_key {A} (key : A → result value) (l : list A)
  : result (list A) :=
  keyed ← with_keys key l;
  Ok (snd <$> py_sorted (λ a b, value_le a.1 b.1) keyed).

Definition row_le (a b : sed_row) : bool :=
  let '(x1, y1, w1, f1) := a in
  let '(x2, y2, w2, f2) := b in
  if bool_decide (x1 = x2) then
    if bool_decide (y1 = y2) then
      if bool_decide (w1 = w2) then bool_decide (f1 ≤ f2)
      else value_le w1 w2
    else bool_decide (y1 ≤ y2)%nat
  else bool_decide (x1 ≤ x2)%nat.

(** [output_seds] up to the table it saves; the plots drawn from the table
    leave no trace here. *)
Definition output_seds (images_with_headers : list image) (st : state)
  : result (list sed_row * state) :=
  '(wavelengths, all_image_data, st) ← seds_read images_with_headers st;
  sed_data ← sed_rows wavelengths all_image_data;
  Ok (py_sorted row_le sed_data, emit (SaveTxt ["test.out"]) st).

(** ** Cleanup *)

Definition cleanup_dir (cfg : config) (st : state) (d : string) : state :=
  let subdir := (directory cfg ++ [d])%list in
  if isdir st subdir then rmtree subdir st else st.

Definition cleanup_output_files (cfg : config) (st : state) : state :=
  foldl (cleanup_dir cfg) st
    ["converted"; "registered"; "convolved"; "resampled"; "seds"].

(** ** Ingestion and the orchestrator *)

(** [s.rfind(c)] *)
Fixpoint rfind (c : ascii) (s : string) : option nat :=
  match s with
  | EmptyString => None
  | String a s' =>
      match rfind c s' with
      | Some n => Some (S n)
      | None => if decide (a = c) then Some 0%nat else None
      end
  end.

Fixpoint only_dots (s : string) : bool :=
  match s with
  | EmptyString => true
  | String a s' => bool_decide (a = "."%char) && only_dots s'
  end.

(** [os.path.splitext(name)[0]] on the last component: the extension
    starts at the last dot, unless only dots come before it. *)
Definition splitext_root (name : string) : string :=
  match rfind "."%char name with
  | Some dot =>
      if only_dots (String.substring 0 dot name) then name
      else String.substring 0 dot name
  | None => name
  end.

Definition splitext_path (p : path) : path :=
  match p with
  | [] => []
  | _ => (dirname p ++ [splitext_root (basename p)])%list
  end.

(** The body of the loop over [all_files]. *)
Definition ingest_file (i : path) (st : state) : result (image * state) :=
  '(hdulist, st) ← fits_open i st;
  primary ← index hdulist 0;
  let header := hdu_header primary in
  image ←
    (if contains "EXTEND" header && contains "DSETS___" header then
       hdu_data <$> index hdulist 1
     else Ok (hdu_data primary));
  let filename := splitext_path i in
  w ← get_wavelength header;
  wavelength_microns ← wavelength_to_microns w.1 w.2;
  let header := setcard header "WAVELENG" (VNum wavelength_microns) "micron" in
  Ok (Image image header filename, st).

Fixpoint ingest (all_files : list path) (st : state)
  : result (list image * state) :=
  match all_files with
  | [] => Ok ([], st)
  | i :: rest =>
      '(img, st) ← ingest_file i st;
      '(others, st) ← ingest rest st;
      Ok (img :: others, st)
  end.

(** The key of the sort: [header[1]['WAVELENG']]. *)
Definition waveleng (img : image) : result value :=
  getitem (img_header img) "WAVELENG".

(** The collection the stages work on. *)
Definition load_images (all_files : list path) (st : state)
  : result (list image * state) :=
  '(images_with_headers_unsorted, st) ← ingest all_files st;
  images_with_headers ← py_sorted_by_key waveleng images_with_headers_unsorted;
  Ok (images_with_headers, st).

(** The stages after ingestion, each behind its flag. *)
Definition run_stages (cfg : config) (images_with_headers : list image)
    (st : state) : result state :=
  '(images_with_headers, st) ←
    (if do_conversion cfg then convert_images images_with_headers st
     else Ok (images_with_headers, st));
  st ← (if do_registration cfg then
          register_images cfg images_with_headers st
        else Ok st);
  st ← (if do_convolution cfg then convolve_images images_with_headers st
        else Ok st);
  st ← (if do_resampling cfg then resample_images cfg images_with_headers st
        else Ok st);
  if do_seds cfg then snd <$> output_seds images_with_headers st else Ok st.

(** The main program; [all_files] is what the directory scan returns. *)
Definition main (cfg : config) (all_files : list path) (st : state)
  : result state :=
  if do_cleanup cfg then Ok (cleanup_output_files cfg st)
  else
    '(images_with_headers, st) ← load_images all_files st;
    run_stages cfg images_with_headers st.

End stages.

(** ** Fixtures *)

(** Integer powers of a rational, and the requirement that [b ** x] is exact
    when the exponent is an integer. *)
Definition Qc_zpow (b : Qc) (z : Z) : Qc := Q2Qc (Qpower b z).

Definition pow_exact `{PyFloat} : Prop :=
  ∀ (b : Qc) (z : Z), py_pow b (Qc_of_Z z) = Qc_zpow b z.

(** A float environment in which no string parses and powers round the
    exponent down to an integer. *)
Definition fixture_float : PyFloat :=
  {| float_of_str := λ _, None;
     py_pow := λ b x, Qc_zpow b (Qfloor x) |}.

Definition one_pixel : ndarray := Array [Array [Scalar (qc 2)]].

Definition spire250_hdr : fits_header :=
  {[ "INSTRUME" := (VStr "SPIRE", "");
     "WAVELENG" := (VNum (qc 250), "micron");
     "CDELT2" := (VNum (qc 6 / qc 3600), "") ]}.
Definition spire350_hdr : fits_header :=
  {[ "INSTRUME" := (VStr "SPIRE", "");
     "WAVELENG" := (VNum (qc 350), "micron") ]}.
Definition spire_set : list image :=
  [ Image one_pixel spire250_hdr ["data"; "s250"];
    Image one_pixel spire350_hdr ["data"; "s350"] ].

Definition unresolved_hdr : fits_header :=
  {[ "INF0001" := (VStr "sdss", "") ]}.

Definition galex_hdr : fits_header :=
  {[ "INF0001" := (VStr "galex nuv", "");
     "WAVELENG" := (VNum (qc 0.2), "micron") ]}.
(** The wavelength that is converted to exactly 2000 angstrom; the nearest
    double is 0.20000000000000004. *)
Definition galex_2000_hdr : fits_header :=
  {[ "INF0001" := (VStr "galex nuv", "");
     "WAVELENG" := (VNum (qc 2000 / UM_TO_ANGSTROM), "micron") ]}.

Definition irac_hdr : fits_header :=
  {[ "INSTRUME" := (VStr "IRAC", "");
     "PXSCAL1" := (VNum (- qc 1.2), "");
     "BUNIT" := (VStr "MJy/sr", "");
     "WAVELENG" := (VNum (qc 8), "micron") ]}.
Definition mips_hdr : fits_header :=
  {[ "INSTRUME" := (VStr "MIPS", "");
     "PLTSCALE" := (VNum (qc 2.45), "") ]}.
Definition pacs_hdr : fits_header :=
  {[ "INSTRUME" := (VStr "PACS", "");
     "BUNIT" := (VStr "Jy/Pixel", "") ]}.
Definition twomass_j_hdr : fits_header :=
  {[ "ORIGIN" := (VStr "2MASS", "");
     "FILTER" := (VStr "j", "");
     "MAGZP" := (VNum (qc 20.0), "") ]}.
Definition twomass_upper_hdr : fits_header :=
  {[ "ORIGIN" := (VStr "2MASS", "");
     "FILTER" := (VStr "J", "");
     "MAGZP" := (VNum (qc 20.0), "") ]}.

(** Services that hand the science image through unchanged. *)
Definition fixture_services : Services :=
  {| mkpattern := λ _ _, Some [Hdu (Array []) ∅];
     ccsetwcs := λ grid _ _ _ _ _ _, Some grid;
     wregister := λ science _ _, Some science;
     make_kernel := λ _, Array [];
     convolve := λ a _, a;
     fwhm_to_sigma := qc 2.3548 |}.

Definition spire_file (wavelength : Qc) : node :=
  FitsFile
    [ Hdu (Array [Array [Scalar (qc 2); Scalar (qc 3)]])
        {[ "INSTRUME" := (VStr "SPIRE", "");
           "WAVELENG" := (VNum wavelength, "micron");
           "CDELT2" := (VNum (qc 6 / qc 3600), "");
           "CRVAL1" := (VNum (qc 10.5), "");
           "CRVAL2" := (VNum (qc 41.2), "");
           "BUNIT" := (VStr "MJy/sr", "") ]} ].

(** A directory with two SPIRE images, and one with a single IRAC image. *)
Definition spire_dir : state :=
  State {[ ["data"] := Dir;
           ["data"; "s250.fits"] := spire_file (qc 250);
           ["data"; "s350.fits"] := spire_file (qc 350) ]} [] [].

Definition irac_dir : state :=
  State {[ ["data"] := Dir;
           ["data"; "i4.fits"] := FitsFile [Hdu one_pixel irac_hdr] ]} [] [].

Definition irac_img : image := Image one_pixel irac_hdr ["data"; "i4"].

Definition all_stages : config :=
  Config ["data"] (Some (qc 60)) None None true true true true true false.
Definition only_cleanup : config :=
  Config ["data"] (Some (qc 60)) None None false false false false false true.
Definition convert_and_register : config :=
  Config ["data"] (Some (qc 60)) None None true true false false false false.

(** An image whose instrument resolves, and is none of the two Herschel
    instruments. *)
Definition not_herschel (img : image) : Prop :=
  ∃ instrument,
    get_instrument (img_header img) = Ok instrument
    ∧ instrument ≠ VStr "PACS" ∧ instrument ≠ VStr "SPIRE".

(** The file a call reads or produces, for the calls that handle one
    science image. *)
Definition touched_by (e : io_event) : option path :=
  match e with
  | ReadFits p => Some p
  | WriteFits p => Some p
  | Wregister _ _ output _ => Some output
  | _ => None
  end.

Definition touched (events : list io_event) : list path :=
  omap touched_by events.

(** The artifacts of each stage for one image. *)
Definition converted (img : image) : path :=
  stage_filename "converted" "_converted.fits" (img_filename img).
Definition registered (img : image) : path :=
  stage_filename "registered" "_registered.fits" (img_filename img).
Definition convolved (img : image) : path :=
  stage_filename "convolved" "_convolved.fits" (img_filename img).
Definition resampled (img : image) : path :=
  stage_filename "resampled" "_resampled.fits" (img_filename img).

(** The science files the enabled stages go through, in order, for a given
    collection. *)
Definition stage_visits (cfg : config) (images : list image) : list path :=
  ((if do_conversion cfg then converted <$> images else [])
   ++ (if do_registration cfg then registered <$> images else [])
   ++ (if do_convolution cfg then
         images ≫= (λ img, [registered img; convolved img])
       else [])
   ++ (if do_resampling cfg then
         (resampled <$> images) ++ (resampled <$> images)
         ++ [directory cfg ++ ["datacube"; "datacube.fits"]]
       else [])
   ++ (if do_seds cfg then resampled <$> images else []))%list.

(** The wavelength in micron recorded in the header of an image. *)
Definition micron_wavelength (img : image) (w : Qc) : Prop :=
  img_header img !! "WAVELENG" = Some (VNum w, "micron").

Definition sorted_by_wavelength (images : list image) : Prop :=
  ∃ ws, Forall2 micron_wavelength images ws ∧ StronglySorted Qcle ws.

(** What the conversion stage leaves of a record: its name, its pixels and
    its wavelength. *)
Definition same_record (a b : image) : Prop :=
  img_filename b = img_filename a
  ∧ img_data b = img_data a
  ∧ img_header b !! "WAVELENG" = img_header a !! "WAVELENG".

(** The directories [cleanup_output_files] goes through. *)
Definition cleaned_dirs : list string :=
  ["converted"; "registered"; "convolved"; "resampled"; "seds"].

(** ** Command line *)

(** The module globals that [parse_command_line] assigns, with the values
    the main program gives them first.  [None] stands for the empty string
    in the three numeric ones. *)
Record globals : Type := Globals {
  g_phys_size : option Qc;
  g_directory : string;
  g_ra_input : option Qc;
  g_dec_input : option Qc;
  g_main_reference_image : string;
  g_convolution_reference_image : string;
  g_conversion_factors : bool;
  g_do_conversion : bool;
  g_do_registration : bool;
  g_do_convolution : bool;
  g_do_resampling : bool;
  g_do_seds : bool;
  g_do_cleanup : bool
}.

Definition initial_globals : globals :=
  Globals None "" None None "" "" false false false false false false false.

(** [opt in ("--name")]: the parentheses do not make a tuple, so this is the
    substring test on strings. *)
Definition substring_of (opt name : string) : bool :=
  bool_decide (is_Some (String.index 0 opt name)).

(** The long options [getopt] is asked to recognise, as it returns them. *)
Definition recognised_options : list string :=
  ["--directory"; "--angular_size"; "--conversion_factors"; "--conversion";
   "--registration"; "--convolution"; "--resampling"; "--seds"; "--cleanup";
   "--ra"; "--dec"; "--reference_image"; "--convolution_reference_image";
   "--help"].

Section command_line.
Context `{PyFloat}.

(** [float(arg)] on an option argument *)
Definition float_arg (arg : string) : result Qc :=
  match float_of_str arg with
  | Some x => Ok x
  | None => Raise ValueError
  end.

(** One [if opt in (...)]: the update is applied when the test holds. *)
Definition when_opt (opt name : string) (update : globals → result globals)
    (g : globals) : result globals :=
  if substring_of opt name then update g else Ok g.

(** The body of the loop over the pairs [(opt, arg)] that [getopt] returns;
    [isdir] is [os.path.isdir]. *)
Definition parse_option (isdir : string → bool) (g : globals)
    (oa : string * string) : result globals :=
  let '(opt, arg) := oa in
  g ← when_opt opt "--help" (λ _, Raise SystemExit) g;
  g ← when_opt opt "--angular_size"
        (λ g, x ← float_arg arg;
              Ok (Globals (Some x) (g_directory g) (g_ra_input g)
                    (g_dec_input g) (g_main_reference_image g)
                    (g_convolution_reference_image g)
                    (g_conversion_factors g) (g_do_conversion g)
                    (g_do_registration g) (g_do_convolution g)
                    (g_do_resampling g) (g_do_seds g) (g_do_cleanup g))) g;
  g ← when_opt opt "--directory"
        (λ g, if isdir arg then
                Ok (Globals (g_phys_size g) arg (g_ra_input g)
                      (g_dec_input g) (g_main_reference_image g)
                      (g_convolution_reference_image g)
                      (g_conversion_factors g) (g_do_conversion g)
                      (g_do_registration g) (g_do_convolution g)
                      (g_do_resampling g) (g_do_seds g) (g_do_cleanup g))
              else Raise SystemExit) g;
  g ← when_opt opt "--conversion_factors"
        (λ g, Ok (Globals (g_phys_size g) (g_directory g) (g_ra_input g)
                    (g_dec_input g) (g_main_reference_image g)
                    (g_convolution_reference_image g)
                    true (g_do_conversion g)
                    (g_do_registration g) (g_do_convolution g)
                    (g_do_resampling g) (g_do_seds g) (g_do_cleanup g))) g;
  g ← when_opt opt "--conversion"
        (λ g, Ok (Globals (g_phys_size g) (g_directory g) (g_ra_input g)
                    (g_dec_input g) (g_main_reference_image g)
                    (g_convolution_reference_image g)
                    (g_conversion_factors g) true
                    (g_do_registration g) (g_do_convolution g)
                    (g_do_resampling g) (g_do_seds g) (g_do_cleanup g))) g;
  g ← when_opt opt "--registration"
        (λ g, Ok (Globals (g_phys_size g) (g_directory g) (g_ra_input g)
                    (g_dec_input g) (g_main_reference_image g)
                    (g_convolution_reference_image g)
                    (g_conversion_factors g) (g_do_conversion g)
                    true (g_do_convolution g)
                    (g_do_resampling g) (g_do_seds g) (g_do_cleanup g))) g;
  g ← when_opt opt "--convolution"
        (λ g, Ok (Globals (g_phys_size g) (g_directory g) (g_ra_input g)
                    (g_dec_input g) (g_main_reference_image g)
                    (g_convolution_reference_image g)
                    (g_conversion_factors g) (g_do_conversion g)
                    (g_do_registration g) true
                    (g_do_resampling g) (g_do_seds g) (g_do_cleanup g))) g;
  g ← when_opt opt "--resampling"
        (λ g, Ok (Globals (g_phys_size g) (g_directory g) (g_ra_input g)
                    (g_dec_input g) (g_main_reference_image g)
                    (g_convolution_reference_image g)
                    (g_conversion_factors g) (g_do_conversion g)
                    (g_do_registration g) (g_do_convolution g)
                    true (g_do_seds g) (g_do_cleanup g))) g;
  g ← when_opt opt "--seds"
        (λ g, Ok (Globals (g_phys_size g) (g_directory g) (g_ra_input g)
                    (g_dec_input g) (g_main_reference_image g)
                    (g_convolution_reference_image g)
                    (g_conversion_factors g) (g_do_conversion g)
                    (g_do_registration g) (g_do_convolution g)
                    (g_do_resampling g) true (g_do_cleanup g))) g;
  g ← when_opt opt "--cleanup"
        (λ g, Ok (Globals (g_phys_size g) (g_directory g) (g_ra_input g)
                    (g_dec_input g) (g_main_reference_image g)
                    (g_convolution_reference_image g)
                    (g_conversion_factors g) (g_do_conversion g)
                    (g_do_registration g) (g_do_convolution g)
                    (g_do_resampling g) (g_do_seds g) true)) g;
  g ← when_opt opt "--ra"
        (λ g, x ← float_arg arg;
              Ok (Globals (g_phys_size g) (g_directory g) (Some x)
                    (g_dec_input g) (g_main_reference_image g)
                    (g_convolution_reference_image g)
                    (g_conversion_factors g) (g_do_conversion g)
                    (g_do_registration g) (g_do_convolution g)
                    (g_do_resampling g) (g_do_seds g) (g_do_cleanup g))) g;
  g ← when_opt opt "--dec"
        (λ g, x ← float_arg arg;
              Ok (Globals (g_phys_size g) (g_directory g) (g_ra_input g)
                    (Some x) (g_main_reference_image g)
                    (g_convolution_reference_image g)
                    (g_conversion_factors g) (g_do_conversion g)
                    (g_do_registration g) (g_do_convolution g)
                    (g_do_resampling g) (g_do_seds g) (g_do_cleanup g))) g;
  g ← when_opt opt "--reference_image"
        (λ g, Ok (Globals (g_phys_size g) (g_directory g) (g_ra_input g)
                    (g_dec_input g) arg
                    (g_convolution_reference_image g)
                    (g_conversion_factors g) (g_do_conversion g)
                    (g_do_registration g) (g_do_convolution g)
                    (g_do_resampling g) (g_do_seds g) (g_do_cleanup g))) g;
  when_opt opt "--convolution_reference_image"
    (λ g, Ok (Globals (g_phys_size g) (g_directory g) (g_ra_input g)
                (g_dec_input g) (g_main_reference_image g)
                arg
                (g_conversion_factors g) (g_do_conversion g)
                (g_do_registration g) (g_do_convolution g)
                (g_do_resampling g) (g_do_seds g) (g_do_cleanup g))) g.

Fixpoint parse_options (isdir : string → bool) (g : globals)
    (opts : list (string * string)) : result globals :=
  match opts with
  | [] => Ok g
  | oa :: rest => g ← parse_option isdir g oa; parse_options isdir g rest
  end.

(** The check of a reference image after the loop; [readable] tells whether
    [open] succeeds on a file name. *)
Definition check_reference (readable : string → bool) (g : globals)
    (name : string) : result unit :=
  if bool_decide (name ≠ "") then
    if readable (g_directory g +:+ "/" +:+ name) then Ok ()
    else Raise SystemExit
  else Ok ().

(** [parse_command_line] from the pairs that [getopt.getopt] returned. *)
Definition parse_command_line (isdir readable : string → bool)
    (opts : list (string * string)) : result globals :=
  g ← parse_options isdir initial_globals opts;
  _ ← check_reference readable g (g_main_reference_image g);
  _ ← check_reference readable g (g_convolution_reference_image g);
  Ok g.

End command_line.

(** ** The earlier script, PyRegistration.py *)

Module PyRegistration.
Section earlier.
Context `{PyFloat}.

Definition get_conversion_factor (header : fits_header) (instrument : value)
  : result Qc :=
  if bool_decide (instrument = VStr "IRAC") then
    pixelscale ← getitem header "PXSCAL1";
    p ← as_num pixelscale;
    Ok (qc 2.3504 * Qc_zpow (qc 10) (-5) * p ^ 2)
  else if bool_decide (instrument = VStr "MIPS") then
    pixelscale ← getitem header "PLTSCALE";
    p ← as_num pixelscale;
    Ok (qc 2.3504 * Qc_zpow (qc 10) (-5) * p ^ 2)
  else if bool_decide (instrument = VStr "GALEX") then
    w ← getitem header "WAVELENG";
    wavelength ← um_to_angstrom w;
    Ok (Qc_zpow (qc 10) 23
        * (if decide (wavelength < qc 2000) then
             qc 1.40 * Qc_zpow (qc 10) (-15)
           else qc 2.06 * Qc_zpow (qc 10) (-16))
        * wavelength ^ 2 / c_angstrom_per_s)
  else if bool_decide (instrument = VStr "2MASS") then
    filter ← getitem header "FILTER";
    m ← getitem header "MAGZP";
    magzp ← as_num m;
    Ok ((if bool_decide (filter = VStr "j") then qc 1594
         else if bool_decide (filter = VStr "h") then qc 1024
         else if bool_decide (filter = VStr "k") then qc 666.7
         else 0)
        * py_pow (qc 10) (- qc 0.4 * magzp))
  else if bool_decide (instrument = VStr "PACS") then
    _ ← (if contains "BUNIT" header then
           b ← getitem header "BUNIT"; _ ← py_lower b; Ok ()
         else Ok ());
    Ok 1
  else if bool_decide (instrument = VStr "SPIRE") then
    d ← getitem header "CDELT2";
    pixelscale ← unit_to (qc 3600) d;
    wavelength ← getitem header "WAVELENG";
    if bool_decide (wavelength = VNum (qc 250)) then
      Ok (pixelscale ^ 2 / qc 423)
    else if bool_decide (wavelength = VNum (qc 350)) then
      Ok (pixelscale ^ 2 / qc 751)
    else if bool_decide (wavelength = VNum (qc 500)) then
      Ok (pixelscale ^ 2 / qc 1587)
    else Ok 0
  else
    Ok 0.

End earlier.
End PyRegistration.

(** Further fixtures: states holding the artifact a stage reads, and a
    few more images. *)
Definition spire250_img : image :=
  Image one_pixel spire250_hdr ["data"; "s250"].

Definition pointed_hdr : fits_header :=
  {[ "INSTRUME" := (VStr "PACS", "");
     "CRVAL1" := (VNum (qc 10.5), "");
     "CRVAL2" := (VNum (qc 41.2), "") ]}.
Definition pointed_img : image := Image one_pixel pointed_hdr ["data"; "p70"].

Definition unknown_hdr : fits_header :=
  {[ "INSTRUME" := (VStr "WFC3", "");
     "BUNIT" := (VStr "counts", "");
     "WAVELENG" := (VNum (qc 0.6), "micron") ]}.
Definition unknown_img : image := Image one_pixel unknown_hdr ["data"; "w"].

Definition bare_dir : state :=
  State {[ ["data"] := Dir;
           ["data"; "b.fits"]
             := FitsFile [Hdu one_pixel {[ "INSTRUME" := (VStr "IRAC", "") ]}] ]}
    [] [].

Definition irac_converted_dir : state :=
  State {[ ["data"] := Dir;
           ["data"; "converted"] := Dir;
           ["data"; "converted"; "i4_converted.fits"]
             := FitsFile [Hdu one_pixel irac_hdr] ]} [] [].

Definition spire_registered_dir : state :=
  State {[ ["data"] := Dir;
           ["data"; "registered"] := Dir;
           ["data"; "registered"; "s250_registered.fits"]
             := spire_file (qc 250) ]} [] [].

Definition spire_resampled_dir : state :=
  State {[ ["data"] := Dir;
           ["data"; "resampled"] := Dir;
           ["data"; "resampled"; "s250_resampled.fits"]
             := spire_file (qc 250) ]} [] [].

Definition with_position : config :=
  Config ["data"] (Some (qc 60)) (Some (qc 10)) (Some (qc 20))
    false true false false false false.

Definition always (_ : string) : bool := true.

(** A SPIRE header whose CDELT2 was stored as text. *)
Definition spire_text_hdr : fits_header :=
  {[ "INSTRUME" := (VStr "SPIRE", "");
     "CDELT2" := (VStr "0.0016667", "");
     "WAVELENG" := (VNum (qc 250), "micron") ]}.

(** Outcomes can be compared. *)
Global Instance pyexn_eq_dec : EqDecision pyexn.
Proof. solve_decision. Defined.

Global Instance result_eq_dec {A} `{EqDecision A} : EqDecision (result A).
Proof. solve_decision. Defined.

(** An image that resolves to instrument [k] and wavelength value [w]. *)
Definition seen_as (img : image) (k w : value) : Prop :=
  get_instrument (img_header img) = Ok k
  ∧ ∃ unit, get_wavelength (img_header img) = Ok (w, unit).

(** The two instruments whose pointing keywords are averaged. *)
Definition is_herschel (k : value) : Prop := k = VStr "PACS" ∨ k = VStr "SPIRE".

(** The reference coordinates of the grids tagged during a run. *)
Definition wcs_refs (events : list io_event) : list (npfloat * npfloat) :=
  omap (λ e, match e with
             | Ccsetwcs _ _ _ _ _ lngref latref => Some (lngref, latref)
             | _ => None
             end) events.

(** The instrument tags [get_conversion_factor] knows. *)
Definition known_instruments : list value :=
  [VStr "IRAC"; VStr "MIPS"; VStr "GALEX"; VStr "2MASS"; VStr "PACS";
   VStr "SPIRE"].

(** * Properties *)

(** Settle the instrument and keyword tests of the branch under study. *)
Ltac branches := repeat (case_bool_decide; try congruence).

(** Equations between closed rationals, possibly under [Ok]. *)
Ltac qc_closed :=
  first
    [ vm_compute; reflexivity
    | apply (f_equal Ok); apply Qc_is_canon; vm_compute; reflexivity
    | apply Qc_is_canon; vm_compute; reflexivity ].

(** Expose the first call of a computation that is known to succeed. *)
Ltac bind_ok H :=
  match type of H with
  | mbind _ ?e = Ok _ =>
      let r := fresh "r" in
      let E := fresh "E" in
      destruct e as [r|] eqn:E; cbn [mbind result_bind] in H;
      [|discriminate H]
  | fmap _ ?e = Ok _ =>
      let r := fresh "r" in
      let E := fresh "E" in
      destruct e as [r|] eqn:E; cbn [fmap result_fmap] in H;
      [|discriminate H]
  end.

Section properties.
Context `{PyFloat} `{Services}.

Lemma getitem_lookup (header : fits_header) key v c :
  header !! key = Some (v, c) → getitem header key = Ok v.
Proof. intros Hk. unfold getitem. rewrite Hk. reflexivity. Qed.

Lemma contains_lookup (header : fits_header) key x :
  header !! key = Some x → contains key header = true.
Proof.
  intros Hk. unfold contains. apply bool_decide_eq_true. rewrite Hk. eauto.
Qed.

Lemma contains_none (header : fits_header) key :
  header !! key = None → contains key header = false.
Proof.
  intros Hk. unfold contains. apply bool_decide_eq_false. rewrite Hk.
  intros [x Hx]. discriminate.
Qed.

Lemma f_lambda_con_fuv wavelength :
  f_lambda_con wavelength = FUV_LAMBDA_CON ↔ wavelength < qc 2000.
Proof.
  unfold f_lambda_con. destruct (decide (wavelength < qc 2000)) as [Hlt|Hge].
  - tauto.
  - split; [|tauto]. intros Heq. exfalso.
    assert (Hne : NUV_LAMBDA_CON ≠ FUV_LAMBDA_CON) by (vm_compute; discriminate).
    contradiction.
Qed.

(** C5. For a GALEX image whose header carries a numeric WAVELENG (in micron),
    the conversion factor is JY_CONVERSION * f * wavelength^2 / c, where
    wavelength is the value in angstrom that the unit conversion returns for
    the header value, and f is 1.40e-15 exactly when that wavelength is
    strictly below 2000 and 2.06e-16 otherwise; when the converted
    wavelength is exactly 2000 the constant 2.06e-16 is used. *)
Theorem galex_factor_strict_threshold (header : fits_header) (w : Qc)
    (c : string) :
  header !! "WAVELENG" = Some (VNum w, c) →
  let wavelength := w * UM_TO_ANGSTROM in
  um_to_angstrom (VNum w) = Ok wavelength
  ∧ get_conversion_factor header (VStr "GALEX")
    = Ok (JY_CONVERSION * f_lambda_con wavelength * wavelength ^ 2
          / c_angstrom_per_s)
  ∧ (f_lambda_con wavelength = qc 1.40e-15 ↔ wavelength < qc 2000)
  ∧ (f_lambda_con wavelength = qc 2.06e-16 ↔ ¬ wavelength < qc 2000)
  ∧ (wavelength = qc 2000 →
     get_conversion_factor header (VStr "GALEX")
     = Ok (JY_CONVERSION * qc 2.06e-16 * qc 2000 ^ 2 / c_angstrom_per_s))
  ∧ qc 1.40e-15 ≠ qc 2.06e-16.
Proof.
  intros Hw wavelength.
  assert (Hf : get_conversion_factor header (VStr "GALEX")
               = Ok (JY_CONVERSION * f_lambda_con wavelength * wavelength ^ 2
                     / c_angstrom_per_s)).
  { unfold get_conversion_factor. branches.
    rewrite (getitem_lookup _ _ _ _ Hw). reflexivity. }
  split; [reflexivity|]. split; [exact Hf|].
  split; [|split; [|split]].
  - apply f_lambda_con_fuv.
  - unfold f_lambda_con. destruct (decide (wavelength < qc 2000)) as [Hlt|Hge].
    + split; [|tauto]. intros Heq. exfalso.
      assert (Hne : FUV_LAMBDA_CON ≠ qc 2.06e-16) by (vm_compute; discriminate).
      contradiction.
    + tauto.
  - intros H2000. rewrite Hf, H2000. reflexivity.
  - vm_compute. discriminate.
Qed.

(** The instrument is fatal when none of the three keywords is present. *)
Lemma get_instrument_no_keyword (header : fits_header) :
  header !! "INSTRUME" = None → header !! "INF0001" = None →
  header !! "ORIGIN" = None →
  get_instrument header = Raise SystemExit.
Proof.
  intros H1 H2 H3. unfold get_instrument.
  rewrite !contains_none by assumption. reflexivity.
Qed.

(** Once INF0001 is present, a value without galex ends the resolution
    with the empty string, whatever ORIGIN holds. *)
Lemma get_instrument_inf0001_without_galex (header : fits_header)
    (s c : string) :
  header !! "INSTRUME" = None →
  header !! "INF0001" = Some (VStr s, c) →
  String.index 0 "galex" s = None →
  get_instrument header = Ok (VStr "").
Proof.
  intros Hi Hm Hs. unfold get_instrument.
  rewrite (contains_none _ _ Hi), (contains_lookup _ _ _ Hm).
  rewrite (getitem_lookup _ _ _ _ Hm). cbn [mbind result_bind str_in].
  rewrite Hs. rewrite bool_decide_eq_false_2; [reflexivity|].
  intros [x Hx]. discriminate Hx.
Qed.

(** C4. A header whose only recognised keyword is INF0001 with a value that
    does not contain galex resolves to no instrument, yet [get_instrument]
    returns the empty string instead of terminating the run; the same header
    with an ORIGIN of 2MASS added is not resolved to 2MASS either. *)
Theorem get_instrument_unresolved_returns_empty :
  get_instrument unresolved_hdr = Ok (VStr "")
  ∧ get_instrument (<["ORIGIN" := (VStr "2MASS", "")]> unresolved_hdr)
    = Ok (VStr "").
Proof. split; vm_compute; reflexivity. Qed.

(** C1 (as amended). An image set whose instrument dictionary holds only
    SPIRE, with the wavelengths 250 and 350 in either order, gets the common
    FWHM 30: the SPIRE 490-510 rule does not apply and SPIRE 300-400 is the
    first rule that does. *)
Theorem spire_250_350_fwhm_30 (images : list image) (ws : list value) :
  instruments_with_wavelengths images ∅ = Ok {[ VStr "SPIRE" := ws ]} →
  ws ≡ₚ [VNum (qc 250); VNum (qc 350)] →
  get_fwhm_value images = Ok (qc 30).
Proof.
  intros Hd Hp. unfold get_fwhm_value. rewrite Hd.
  symmetry in Hp. apply Permutation_length_2_inv in Hp.
  destruct Hp as [-> | ->]; vm_compute; reflexivity.
Qed.

Lemma angstrom_name_not_micron (unit : string) :
  unit ∈ angstrom_names → (unit ∉ micron_names) ∧ (unit ∉ um_names).
Proof.
  unfold angstrom_names, micron_names, um_names.
  rewrite !elem_of_cons, !elem_of_nil.
  intros [-> | [-> | [-> | []]]]; split;
    [intros [? | []]|intros [? | [? | []]]|intros [? | []]
    |intros [? | [? | []]]|intros [? | []]|intros [? | [? | []]]];
    discriminate.
Qed.

(** C8. For a numeric wavelength w, unit normalisation returns w when the
    unit is a name of the micron (micron, um or micrometer), w * 1e-4 when
    it is a name of the angstrom (AA, Angstrom or angstrom), and 1 for every
    other unit string, whatever the wavelength value. *)
Theorem wavelength_to_microns_cases (w : Qc) (unit : string) :
  (unit ∈ ["micron"; "um"; "micrometer"] →
     wavelength_to_microns (VNum w) unit = Ok w)
  ∧ (unit ∈ ["AA"; "Angstrom"; "angstrom"] →
     wavelength_to_microns (VNum w) unit = Ok (w * qc 1e-4))
  ∧ (unit ∉ ["micron"; "um"; "micrometer"] →
     unit ∉ ["AA"; "Angstrom"; "angstrom"] →
     ∀ v : value, wavelength_to_microns v unit = Ok 1).
Proof.
  assert (Hmu : unit ∈ ["micron"; "um"; "micrometer"]
                ↔ unit ∈ micron_names ∨ unit ∈ um_names).
  { unfold micron_names, um_names. rewrite !elem_of_cons, !elem_of_nil.
    tauto. }
  change ["AA"; "Angstrom"; "angstrom"] with angstrom_names.
  rewrite Hmu. unfold wavelength_to_microns. split; [|split].
  - intros [Hm | Hm].
    + rewrite (bool_decide_eq_true_2 _ Hm). reflexivity.
    + rewrite (bool_decide_eq_true_2 (unit ∈ um_names) Hm).
      rewrite ?orb_true_r. reflexivity.
  - intros Ha.
    pose proof (angstrom_name_not_micron unit Ha) as [Hnm Hnu].
    rewrite (bool_decide_eq_false_2 _ Hnm), (bool_decide_eq_false_2 _ Hnu).
    rewrite (bool_decide_eq_true_2 _ Ha). reflexivity.
  - intros Hn Hna v.
    assert (Hnm : unit ∉ micron_names) by tauto.
    assert (Hnu : unit ∉ um_names) by tauto.
    rewrite (bool_decide_eq_false_2 _ Hnm), (bool_decide_eq_false_2 _ Hnu).
    rewrite (bool_decide_eq_false_2 _ Hna). reflexivity.
Qed.

Lemma irac_factor (header : fits_header) (p : Qc) (c : string) :
  header !! "PXSCAL1" = Some (VNum p, c) →
  get_conversion_factor header (VStr "IRAC")
  = Ok (MJY_PER_SR_TO_JY_PER_PIXEL * Qcabs p ^ 2).
Proof.
  intros Hp. unfold get_conversion_factor, get_native_pixelscale.
  branches. rewrite (getitem_lookup _ _ _ _ Hp). reflexivity.
Qed.

Lemma mips_factor (header : fits_header) (p : Qc) (c : string) :
  header !! "PLTSCALE" = Some (VNum p, c) →
  get_conversion_factor header (VStr "MIPS")
  = Ok (MJY_PER_SR_TO_JY_PER_PIXEL * p ^ 2).
Proof.
  intros Hp. unfold get_conversion_factor, get_native_pixelscale.
  branches.
  rewrite (getitem_lookup _ _ _ _ Hp). reflexivity.
Qed.

Lemma spire_250_factor (header : fits_header) (d : Qc) (c c' : string) :
  header !! "CDELT2" = Some (VNum d, c) →
  header !! "WAVELENG" = Some (VNum (qc 250), c') →
  get_conversion_factor header (VStr "SPIRE")
  = Ok (deg_to_arcsec (Qcabs d) ^ 2 / S250_BEAM_AREA).
Proof.
  intros Hd Hw. unfold get_conversion_factor, get_native_pixelscale.
  rewrite (getitem_lookup _ _ _ _ Hd), (getitem_lookup _ _ _ _ Hw).
  cbn [mbind result_bind py_abs as_num fmap result_fmap].
  branches. reflexivity.
Qed.

Lemma twomass_factor (header : fits_header) (filter : value) (m : Qc)
    (c c' : string) :
  header !! "FILTER" = Some (filter, c) →
  header !! "MAGZP" = Some (VNum m, c') →
  get_conversion_factor header (VStr "2MASS")
  = Ok (fvega filter * py_pow (qc 10) (- qc 0.4 * m)).
Proof.
  intros Hf Hm. unfold get_conversion_factor.
  branches.
  rewrite (getitem_lookup _ _ _ _ Hf), (getitem_lookup _ _ _ _ Hm).
  reflexivity.
Qed.

Lemma pacs_factor (header : fits_header) :
  (header !! "BUNIT" = None ∨ ∃ s c, header !! "BUNIT" = Some (VStr s, c)) →
  get_conversion_factor header (VStr "PACS") = Ok 1.
Proof.
  intros Hb. unfold get_conversion_factor.
  branches.
  destruct Hb as [Hb | (s & c & Hb)].
  - rewrite (contains_none _ _ Hb). reflexivity.
  - rewrite (contains_lookup _ _ _ Hb), (getitem_lookup _ _ _ _ Hb).
    reflexivity.
Qed.

(** C6. The conversion factor reproduces the calibration formulas on the
    literal fixtures: IRAC with a pixel scale of 1.2 (PXSCAL1 of 1.2 or
    -1.2) gives 2.3504e-5 * 1.2^2; SPIRE at wavelength 250 with a pixel
    scale of 6 arcsec, that is a CDELT2 of 6/3600 degree of either sign,
    gives 36/423; 2MASS with filter j and MAGZP 20.0 gives 1594 * 10^(-8),
    the power being exact at integer exponents; PACS gives 1 when BUNIT is
    absent or a string; and MIPS uses the IRAC formula
    2.3504e-5 * pixelscale^2 on its own pixel scale keyword. *)
Theorem conversion_factor_fixtures
    (irac spire twomass pacs mips : fits_header) (q d p : Qc)
    (c1 c2 c3 c4 c5 c6 : string) :
  pow_exact →
  irac !! "PXSCAL1" = Some (VNum q, c1) → Qcabs q = qc 1.2 →
  spire !! "CDELT2" = Some (VNum d, c2) → Qcabs d = qc 6 / qc 3600 →
  spire !! "WAVELENG" = Some (VNum (qc 250), c3) →
  twomass !! "FILTER" = Some (VStr "j", c4) →
  twomass !! "MAGZP" = Some (VNum (qc 20.0), c5) →
  (pacs !! "BUNIT" = None ∨ ∃ s c, pacs !! "BUNIT" = Some (VStr s, c)) →
  mips !! "PLTSCALE" = Some (VNum p, c6) →
  get_conversion_factor irac (VStr "IRAC") = Ok (qc 2.3504e-5 * qc 1.2 ^ 2)
  ∧ get_native_pixelscale spire (VStr "SPIRE") = Ok (VNum (qc 6))
  ∧ get_conversion_factor spire (VStr "SPIRE") = Ok (qc 36 / qc 423)
  ∧ get_conversion_factor twomass (VStr "2MASS")
    = Ok (qc 1594 * Qc_zpow (qc 10) (-8))
  ∧ get_conversion_factor pacs (VStr "PACS") = Ok (qc 1.0)
  ∧ get_conversion_factor mips (VStr "MIPS") = Ok (qc 2.3504e-5 * p ^ 2).
Proof.
  intros Hpow Hi Hq Hs1 Hd Hs2 Ht1 Ht2 Hp Hm.
  split; [|split; [|split; [|split; [|split]]]].
  - rewrite (irac_factor _ _ _ Hi), Hq. qc_closed.
  - unfold get_native_pixelscale. branches.
    rewrite (getitem_lookup _ _ _ _ Hs1).
    cbn [mbind result_bind py_abs as_num fmap result_fmap].
    rewrite Hd. do 2 f_equal. apply Qc_is_canon. vm_compute. reflexivity.
  - rewrite (spire_250_factor _ _ _ _ Hs1 Hs2), Hd. qc_closed.
  - rewrite (twomass_factor _ _ _ _ _ Ht1 Ht2). f_equal.
    replace (- qc 0.4 * qc 20.0) with (Qc_of_Z (-8))
      by (apply Qc_is_canon; vm_compute; reflexivity).
    rewrite Hpow. reflexivity.
  - rewrite (pacs_factor _ Hp). qc_closed.
  - apply mips_factor with c6. assumption.
Qed.

(** C10. For a 2MASS header with a numeric MAGZP whose FILTER value is none
    of the lower-case strings j, h, k, the conversion factor is 0; wavelength
    resolution on the same header, when it goes through FILTER, lower-cases
    the value first and resolves J, H and K in either case to their
    wavelengths. *)
Theorem twomass_filter_case_sensitive (header : fits_header)
    (filter : value) (m : Qc) (c c' : string) :
  header !! "FILTER" = Some (filter, c) →
  filter ≠ VStr "j" → filter ≠ VStr "h" → filter ≠ VStr "k" →
  header !! "MAGZP" = Some (VNum m, c') →
  get_conversion_factor header (VStr "2MASS") = Ok 0
  ∧ (header !! "WAVELENG" = None → header !! "WAVELNTH" = None →
     get_instrument header = Ok (VStr "2MASS") →
     ∀ s, filter = VStr s →
       (str_lower s = "j" →
          get_wavelength header = Ok (VNum (qc 1.2409), "micron"))
       ∧ (str_lower s = "h" →
          get_wavelength header = Ok (VNum (qc 1.6514), "micron"))
       ∧ (str_lower s = "k" →
          get_wavelength header = Ok (VNum (qc 2.1656), "micron"))).
Proof.
  intros Hf Hj Hh Hk Hm. split.
  - rewrite (twomass_factor _ _ _ _ _ Hf Hm). f_equal.
    unfold fvega. branches. apply Qcmult_0_l.
  - intros Hw1 Hw2 Hi s ->. unfold get_wavelength.
    rewrite (contains_none _ _ Hw1), (contains_none _ _ Hw2).
    rewrite (contains_lookup _ _ _ Hf), (getitem_lookup _ _ _ _ Hf).
    cbn [mbind result_bind]. rewrite Hi. cbn [mbind result_bind py_lower].
    split; [|split]; intros ->; reflexivity.
Qed.

Lemma ensure_dir_converted_data (d : path) (st : state) :
  converted_data (ensure_dir d st) = converted_data st.
Proof. unfold ensure_dir. destruct (path_exists st d); reflexivity. Qed.

(** C9 (as amended). When the loop body of the conversion stage succeeds on
    an image record, the record keeps its pixel array and its file name; the
    array multiplied by the conversion factor is appended to
    [converted_data] and written, with the updated header, to the converted
    file; and the header of the record changes in exactly two keywords:
    BUNIT now reads Jy/pixel and JYPXFACT holds the factor. *)
Theorem convert_image_effect (img img' : image) (st st' : state) :
  convert_image img st = Ok (img', st') →
  ∃ instrument factor,
    get_instrument (img_header img) = Ok instrument
    ∧ get_conversion_factor (img_header img) instrument = Ok factor
    ∧ img_data img' = img_data img
    ∧ img_filename img' = img_filename img
    ∧ converted_data st'
      = (converted_data st ++ [scale factor (img_data img)])%list
    ∧ fst <$> img_header img' !! "BUNIT" = Some (VStr "Jy/pixel")
    ∧ fst <$> img_header img' !! "JYPXFACT" = Some (VNum factor)
    ∧ (∀ key, key ≠ "BUNIT" → key ≠ "JYPXFACT" →
         img_header img' !! key = img_header img !! key)
    ∧ fs st' !! stage_filename "converted" "_converted.fits" (img_filename img)
      = Some (FitsFile [Hdu (scale factor (img_data img)) (img_header img')]).
Proof.
  intros Hc. unfold convert_image in Hc.
  bind_ok Hc. bind_ok Hc. injection Hc as <- <-.
  exists r, r0. cbn [img_data img_header img_filename converted_data fs].
  repeat split.
  - exact E0.
  - unfold fits_writeto, emit, set_fs. cbn [converted_data].
    rewrite ensure_dir_converted_data. reflexivity.
  - unfold setcard, setitem. rewrite lookup_insert_ne by discriminate.
    rewrite lookup_insert_eq. reflexivity.
  - unfold setcard. rewrite lookup_insert_eq. reflexivity.
  - intros key Hb Hj. unfold setcard, setitem.
    rewrite !lookup_insert_ne by congruence. reflexivity.
  - unfold fits_writeto, emit, set_fs. cbn [fs].
    rewrite lookup_insert_eq. reflexivity.
Qed.

Lemma herschel_values_none (images : list image) (keyword : string) :
  Forall not_herschel images → herschel_values images keyword = Ok [].
Proof.
  induction 1 as [|img rest (instrument & Hi & Hp & Hs) _ IH];
    [reflexivity|].
  cbn [herschel_values]. rewrite Hi. cbn [mbind result_bind].
  rewrite (bool_decide_eq_false_2 _ Hp), (bool_decide_eq_false_2 _ Hs).
  exact IH.
Qed.

(** C2 (as amended). When no RA/Dec is given and every image resolves to an
    instrument other than PACS and SPIRE, the mean of the sky-position
    keyword is taken over no value at all and is [nan]; nothing is raised,
    and registration goes on into its loop with [nan] as both reference
    coordinates. *)
Theorem reference_position_without_herschel (cfg : config)
    (images : list image) (st : state) (keyword : string) :
  ra_input cfg = None → dec_input cfg = None →
  Forall not_herschel images →
  get_herschel_mean images keyword = Ok NaN
  ∧ reference_coordinate None images keyword = Ok NaN
  ∧ register_images cfg images st = register_loop cfg NaN NaN images st.
Proof.
  intros Hra Hdec Hn.
  assert (Hmean : ∀ k, get_herschel_mean images k = Ok NaN).
  { intros k. unfold get_herschel_mean.
    rewrite (herschel_values_none _ k Hn). reflexivity. }
  split; [apply Hmean|]. split; [apply Hmean|].
  unfold register_images. rewrite Hra, Hdec.
  cbn [reference_coordinate]. rewrite !Hmean. reflexivity.
Qed.

Lemma stage_dir_not_prefix (dir : path) (d d' : string) :
  d ≠ d' → ¬ (dir ++ [d])%list `prefix_of` (dir ++ [d'])%list.
Proof.
  intros Hne Hp. apply prefix_app_inv in Hp.
  apply prefix_cons_inv_1 in Hp. contradiction.
Qed.

Lemma cleanup_dir_keeps (cfg : config) (st : state) (d d' : string) :
  d ≠ d' →
  fs (cleanup_dir cfg st d) !! (directory cfg ++ [d'])%list
  = fs st !! (directory cfg ++ [d'])%list.
Proof.
  intros Hne. unfold cleanup_dir.
  destruct (isdir st (directory cfg ++ [d])%list); [|reflexivity].
  unfold rmtree, emit, set_fs. cbn [fs].
  destruct (fs st !! (directory cfg ++ [d'])%list) as [n|] eqn:Hl.
  - apply map_lookup_filter_Some. split; [assumption|].
    cbn. apply stage_dir_not_prefix. assumption.
  - apply map_lookup_filter_None. left. assumption.
Qed.

Lemma cleanup_dir_shrinks (cfg : config) (st : state) (d : string) (p : path) :
  isdir st p = false → isdir (cleanup_dir cfg st d) p = false.
Proof.
  intros Hp. unfold cleanup_dir.
  destruct (isdir st (directory cfg ++ [d])%list); [|assumption].
  unfold isdir, rmtree, emit, set_fs in *. cbn [fs].
  destruct (filter _ (fs st) !! p) as [n|] eqn:Hl; [|reflexivity].
  apply map_lookup_filter_Some in Hl as [Hl _]. rewrite Hl in Hp. exact Hp.
Qed.

Lemma cleanup_dir_removes (cfg : config) (st : state) (d : string) :
  isdir (cleanup_dir cfg st d) (directory cfg ++ [d])%list = false.
Proof.
  unfold cleanup_dir.
  destruct (isdir st (directory cfg ++ [d])%list) eqn:Hd; [|assumption].
  unfold isdir, rmtree, emit, set_fs. cbn [fs].
  destruct (filter _ (fs st) !! _) as [n|] eqn:Hl; [|reflexivity].
  apply map_lookup_filter_Some in Hl as [_ Hn]. cbn in Hn.
  exfalso. apply Hn. reflexivity.
Qed.

Lemma cleanup_fold_shrinks (cfg : config) (dirs : list string) (st : state)
    (p : path) :
  isdir st p = false → isdir (foldl (cleanup_dir cfg) st dirs) p = false.
Proof.
  revert st. induction dirs as [|d dirs IH]; intros st Hp; [assumption|].
  cbn [foldl]. apply IH, cleanup_dir_shrinks, Hp.
Qed.

(** Cleanup removes each of the five directories it goes through. *)
Lemma cleanup_removes_stage_dirs (cfg : config) (st : state) (d : string) :
  d ∈ cleaned_dirs →
  isdir (cleanup_output_files cfg st) (directory cfg ++ [d])%list = false.
Proof.
  unfold cleanup_output_files. fold cleaned_dirs.
  generalize cleaned_dirs. intros dirs. revert st.
  induction dirs as [|d' dirs IH]; intros st Hin.
  - apply elem_of_nil in Hin. contradiction.
  - cbn [foldl]. apply elem_of_cons in Hin as [-> | Hin].
    + apply cleanup_fold_shrinks, cleanup_dir_removes.
    + apply IH, Hin.
Qed.

(** Cleanup never touches the data cube directory. *)
Lemma cleanup_keeps_datacube (cfg : config) (st : state) :
  fs (cleanup_output_files cfg st) !! (directory cfg ++ ["datacube"])%list
  = fs st !! (directory cfg ++ ["datacube"])%list.
Proof.
  unfold cleanup_output_files. cbn [foldl].
  rewrite !cleanup_dir_keeps by discriminate. reflexivity.
Qed.

(** *** Sorting *)

Section sorting.
Context {A : Type} (le : A → A → bool).
Hypothesis le_total : ∀ a b, le a b = true ∨ le b a = true.

Lemma insert_sorted_perm (x : A) (l : list A) : insert_sorted le x l ≡ₚ x :: l.
Proof.
  induction l as [|y l IH]; [reflexivity|].
  cbn [insert_sorted]. destruct (le x y); [reflexivity|].
  rewrite IH. apply perm_swap.
Qed.

Lemma py_sorted_perm (l : list A) : py_sorted le l ≡ₚ l.
Proof.
  induction l as [|x l IH]; [reflexivity|].
  cbn [py_sorted foldr]. rewrite insert_sorted_perm.
  apply perm_skip. exact IH.
Qed.

Lemma insert_sorted_hd (z x : A) (l : list A) :
  le z x = true → HdRel (λ a b, le a b = true) z l →
  HdRel (λ a b, le a b = true) z (insert_sorted le x l).
Proof.
  intros Hzx Hl. destruct l as [|y l]; cbn [insert_sorted].
  - constructor. assumption.
  - destruct (le x y); constructor; [assumption|].
    inversion Hl; assumption.
Qed.

Lemma insert_sorted_sorted (x : A) (l : list A) :
  Sorted (λ a b, le a b = true) l →
  Sorted (λ a b, le a b = true) (insert_sorted le x l).
Proof.
  induction 1 as [|y l Hs IH Hhd]; cbn [insert_sorted].
  - repeat constructor.
  - destruct (le x y) eqn:Hxy.
    + constructor; [constructor; assumption|]. constructor. assumption.
    + constructor; [assumption|].
      apply insert_sorted_hd; [|assumption].
      destruct (le_total x y) as [Hle|Hle]; [congruence|assumption].
Qed.

Lemma py_sorted_sorted (l : list A) :
  Sorted (λ a b, le a b = true) (py_sorted le l).
Proof.
  induction l as [|x l IH]; [constructor|].
  cbn [py_sorted foldr]. apply insert_sorted_sorted. exact IH.
Qed.

End sorting.

Lemma value_le_total (a b : value) : value_le a b = true ∨ value_le b a = true.
Proof.
  destruct a as [x|x], b as [y|y]; cbn [value_le]; auto.
  - apply String.leb_total.
  - rewrite !bool_decide_eq_true.
    destruct (Qclt_le_dec y x) as [Hlt|Hle]; [right|left]; [|assumption].
    apply Qclt_le_weak. assumption.
Qed.

Lemma with_keys_spec {A} (key : A → result value) (l : list A)
    (keyed : list (value * A)) :
  with_keys key l = Ok keyed →
  snd <$> keyed = l ∧ Forall (λ kx, key kx.2 = Ok kx.1) keyed.
Proof.
  revert keyed. induction l as [|x l IH]; intros keyed Hk; cbn in Hk.
  - injection Hk as <-. split; constructor.
  - bind_ok Hk. bind_ok Hk. injection Hk as <-.
    destruct (IH _ eq_refl) as [Hs Hf]. split.
    + cbn. rewrite Hs. reflexivity.
    + constructor; assumption.
Qed.

Lemma with_keys_total {A} (key : A → result value) (l : list A) :
  Forall (λ x, ∃ k, key x = Ok k) l → ∃ keyed, with_keys key l = Ok keyed.
Proof.
  induction 1 as [|x l [k Hk] _ [keyed IH]]; cbn; [eauto|].
  rewrite Hk, IH. cbn. eauto.
Qed.

(** *** Ingestion *)

Lemma ingest_file_spec (i : path) (st st' : state) (img : image) :
  ingest_file i st = Ok (img, st') →
  st' = emit (ReadFits i) st ∧ ∃ w, micron_wavelength img w.
Proof.
  unfold ingest_file, fits_open. intros Hi.
  destruct (fs st !! i) as [[|hdulist]|]; try discriminate Hi.
  cbn [mbind result_bind] in Hi.
  do 4 bind_ok Hi. injection Hi as <- <-.
  split; [reflexivity|]. exists r2.
  unfold micron_wavelength, setcard. cbn [img_header].
  apply lookup_insert_eq.
Qed.

Lemma ingest_spec (all_files : list path) (st st' : state)
    (images : list image) :
  ingest all_files st = Ok (images, st') →
  Forall (λ img, ∃ w, micron_wavelength img w) images
  ∧ log st' = (log st ++ (ReadFits <$> all_files))%list.
Proof.
  revert st images. induction all_files as [|i rest IH]; intros st images Hi;
    cbn [ingest] in Hi.
  - injection Hi as <- <-. split; [constructor|].
    cbn. rewrite app_nil_r. reflexivity.
  - bind_ok Hi. destruct r as [img st1]. bind_ok Hi.
    destruct r as [others st2]. injection Hi as <- <-.
    destruct (ingest_file_spec _ _ _ _ E) as [-> Hw].
    destruct (IH _ _ E0) as [Hf Hl]. split; [constructor; assumption|].
    rewrite Hl. cbn. rewrite <- app_assoc. reflexivity.
Qed.

(** A list sorted on keys that are all numbers is sorted on the numbers. *)
Lemma sorted_keys_wavelengths (keyed : list (value * image)) :
  Sorted (λ a b, value_le a.1 b.1 = true) keyed →
  Forall (λ kx, ∃ w, kx.1 = VNum w ∧ micron_wavelength kx.2 w) keyed →
  ∃ ws, Forall2 micron_wavelength (snd <$> keyed) ws
        ∧ fst <$> keyed = VNum <$> ws
        ∧ Sorted Qcle ws.
Proof.
  induction 1 as [|[k x] keyed Hs IH Hhd]; intros Hf.
  - exists []. repeat split; constructor.
  - apply Forall_cons in Hf as [(w & Hk & Hw) Hf]. cbn in Hk, Hw. subst k.
    destruct (IH Hf) as (ws & H2 & Hfst & Hsorted).
    exists (w :: ws). split; [constructor; assumption|].
    split; [cbn; rewrite Hfst; reflexivity|].
    constructor; [assumption|].
    destruct Hhd as [|[k' x'] keyed' Hle]; destruct ws as [|w' ws'];
      try discriminate Hfst; constructor.
    cbn in Hfst, Hle. injection Hfst as -> _.
    cbn in Hle. apply bool_decide_eq_true in Hle. exact Hle.
Qed.

Lemma micron_wavelength_key (img : image) (w : Qc) :
  micron_wavelength img w → waveleng img = Ok (VNum w).
Proof. intros Hw. unfold waveleng. apply (getitem_lookup _ _ _ _ Hw). Qed.

(** Sorting by WAVELENG cannot fail on images that carry a numeric
    WAVELENG, and the outcome is a sorted rearrangement. *)
Lemma sort_by_waveleng (unsorted : list image) :
  Forall (λ img, ∃ w, micron_wavelength img w) unsorted →
  ∃ images,
    py_sorted_by_key waveleng unsorted = Ok images
    ∧ images ≡ₚ unsorted
    ∧ sorted_by_wavelength images.
Proof.
  intros Hw. unfold py_sorted_by_key.
  destruct (with_keys_total waveleng unsorted) as [keyed Hk].
  { eapply Forall_impl; [exact Hw|]. intros img [w Hi].
    exists (VNum w). apply micron_wavelength_key. assumption. }
  rewrite Hk. cbn [mbind result_bind].
  destruct (with_keys_spec _ _ _ Hk) as [Hsnd Hkeys].
  set (le := λ a b : value * image, value_le a.1 b.1).
  assert (Hperm : py_sorted le keyed ≡ₚ keyed) by apply py_sorted_perm.
  eexists. split; [reflexivity|]. split.
  - rewrite Hperm, Hsnd. reflexivity.
  - destruct (sorted_keys_wavelengths (py_sorted le keyed)) as (ws & H2 & _ & Hs).
    + apply py_sorted_sorted. intros a b. apply value_le_total.
    + rewrite Hperm. rewrite Forall_forall in Hkeys. apply Forall_forall.
      intros [k x] Hin. specialize (Hkeys _ Hin). cbn in Hkeys.
      assert (Hx : x ∈ unsorted).
      { rewrite <- Hsnd. apply list_elem_of_fmap. exists (k, x). auto. }
      rewrite Forall_forall in Hw. destruct (Hw _ Hx) as [w Hmw].
      exists w. split; [|assumption]. cbn.
      rewrite (micron_wavelength_key _ _ Hmw) in Hkeys. congruence.
    + exists ws. split; [assumption|].
      apply Sorted_StronglySorted; [apply _|assumption].
Qed.

(** *** The order in which the stages go through the collection *)

Lemma touched_app (l1 l2 : list io_event) :
  touched (l1 ++ l2) = (touched l1 ++ touched l2)%list.
Proof. apply omap_app. Qed.

Lemma touched_emit (e : io_event) (st : state) :
  touched (log (emit e st))
  = (touched (log st) ++ option_list (touched_by e))%list.
Proof.
  unfold emit. cbn [log]. rewrite touched_app. reflexivity.
Qed.

Lemma touched_ensure_dir (d : path) (st : state) :
  touched (log (ensure_dir d st)) = touched (log st).
Proof.
  unfold ensure_dir. destruct (path_exists st d); [reflexivity|].
  unfold makedirs. rewrite touched_emit. cbn. apply app_nil_r.
Qed.

Lemma fits_open_spec (p : path) (st st' : state) (hdulist : list hdu) :
  fits_open p st = Ok (hdulist, st') → st' = emit (ReadFits p) st.
Proof.
  unfold fits_open. intros Ho.
  destruct (fs st !! p) as [[|h]|]; try discriminate Ho.
  injection Ho as _ <-. reflexivity.
Qed.

Lemma iraf_mkpattern_touched (output : path) (ncols nlines : Qc)
    (st st' : state) :
  iraf_mkpattern output ncols nlines st = Ok st' →
  touched (log st') = touched (log st).
Proof.
  unfold iraf_mkpattern. intros Hm.
  destruct (mkpattern ncols nlines); [|discriminate Hm].
  injection Hm as <-. rewrite touched_emit. cbn. apply app_nil_r.
Qed.

Lemma iraf_ccsetwcs_touched (images : path) (xref yref xmag ymag : Qc)
    (lngref latref : npfloat) (st st' : state) :
  iraf_ccsetwcs images xref yref xmag ymag lngref latref st = Ok st' →
  touched (log st') = touched (log st).
Proof.
  unfold iraf_ccsetwcs. intros Hc.
  destruct (fs st !! images) as [[|grid]|]; try discriminate Hc.
  destruct (ccsetwcs grid xref yref xmag ymag lngref latref);
    [|discriminate Hc].
  injection Hc as <-. rewrite touched_emit. cbn. apply app_nil_r.
Qed.

Lemma iraf_wregister_touched (input reference output : path)
    (fluxconserve : bool) (st st' : state) :
  iraf_wregister input reference output fluxconserve st = Ok st' →
  touched (log st') = (touched (log st) ++ [output])%list.
Proof.
  unfold iraf_wregister. intros Hw.
  destruct (fs st !! input) as [[|science]|]; try discriminate Hw.
  destruct (fs st !! reference) as [[|grid]|]; try discriminate Hw.
  destruct (wregister science grid fluxconserve); [|discriminate Hw].
  injection Hw as <-. rewrite touched_emit. reflexivity.
Qed.

Lemma convert_image_visit (img img' : image) (st st' : state) :
  convert_image img st = Ok (img', st') →
  touched (log st') = (touched (log st) ++ [converted img])%list
  ∧ same_record img img'.
Proof.
  intros Hc. unfold convert_image in Hc. do 2 bind_ok Hc.
  injection Hc as <- <-. split.
  - unfold fits_writeto. rewrite touched_emit. cbn [log set_fs].
    rewrite touched_ensure_dir. reflexivity.
  - repeat split. cbn [img_header]. unfold setcard, setitem.
    rewrite !lookup_insert_ne by discriminate. reflexivity.
Qed.

Lemma convert_images_visits (images images' : list image) (st st' : state) :
  convert_images images st = Ok (images', st') →
  touched (log st') = (touched (log st) ++ (converted <$> images))%list
  ∧ Forall2 same_record images images'.
Proof.
  revert st images'. induction images as [|img rest IH]; intros st images' Hc;
    cbn [convert_images] in Hc.
  - injection Hc as <- <-. split; [|constructor].
    cbn. rewrite app_nil_r. reflexivity.
  - bind_ok Hc. destruct r as [img1 st1]. bind_ok Hc.
    destruct r as [rest1 st2]. injection Hc as <- <-.
    destruct (convert_image_visit _ _ _ _ E) as [Hl Hs].
    destruct (IH _ _ E0) as [Hl' Hs']. split; [|constructor; assumption].
    rewrite Hl', Hl. cbn. rewrite <- app_assoc. reflexivity.
Qed.

Lemma register_image_visit (cfg : config) (lngref latref : npfloat)
    (img : image) (st st' : state) :
  register_image cfg lngref latref img st = Ok st' →
  touched (log st') = (touched (log st) ++ [registered img])%list.
Proof.
  intros Hr. unfold register_image in Hr. do 8 bind_ok Hr.
  rewrite (iraf_wregister_touched _ _ _ _ _ _ Hr).
  rewrite (iraf_ccsetwcs_touched _ _ _ _ _ _ _ _ _ E6).
  rewrite (iraf_mkpattern_touched _ _ _ _ _ E5).
  rewrite touched_ensure_dir. reflexivity.
Qed.

Lemma register_loop_visits (cfg : config) (lngref latref : npfloat)
    (images : list image) (st st' : state) :
  register_loop cfg lngref latref images st = Ok st' →
  touched (log st') = (touched (log st) ++ (registered <$> images))%list.
Proof.
  revert st. induction images as [|img rest IH]; intros st Hr;
    cbn [register_loop] in Hr.
  - injection Hr as <-. cbn. rewrite app_nil_r. reflexivity.
  - bind_ok Hr. rewrite (IH _ Hr), (register_image_visit _ _ _ _ _ _ E).
    cbn. rewrite <- app_assoc. reflexivity.
Qed.

Lemma register_images_visits (cfg : config) (images : list image)
    (st st' : state) :
  register_images cfg images st = Ok st' →
  touched (log st') = (touched (log st) ++ (registered <$> images))%list.
Proof.
  intros Hr. unfold register_images in Hr. do 2 bind_ok Hr.
  apply (register_loop_visits _ _ _ _ _ _ Hr).
Qed.

Lemma convolve_image_visit (fwhm_input : Qc) (img : image) (st st' : state) :
  convolve_image fwhm_input img st = Ok st' →
  touched (log st')
  = (touched (log st) ++ [registered img; convolved img])%list.
Proof.
  intros Hc. unfold convolve_image in Hc. do 5 bind_ok Hc.
  destruct r3 as [hdulist st1]. bind_ok Hc. injection Hc as <-.
  apply fits_open_spec in E3. subst st1.
  unfold fits_writeto. rewrite !touched_emit. cbn [log set_fs].
  rewrite touched_emit, touched_ensure_dir. cbn.
  rewrite <- app_assoc. reflexivity.
Qed.

Lemma convolve_loop_visits (fwhm_input : Qc) (images : list image)
    (st st' : state) :
  convolve_loop fwhm_input images st = Ok st' →
  touched (log st')
  = (touched (log st)
     ++ (images ≫= (λ img, [registered img; convolved img])))%list.
Proof.
  revert st. induction images as [|img rest IH]; intros st Hc;
    cbn [convolve_loop] in Hc.
  - injection Hc as <-. cbn. rewrite app_nil_r. reflexivity.
  - bind_ok Hc. rewrite (IH _ Hc), (convolve_image_visit _ _ _ _ E).
    cbn. rewrite <- app_assoc. reflexivity.
Qed.

Lemma resample_loop_visits (images : list image) (st st' : state) :
  resample_loop images st = Ok st' →
  touched (log st') = (touched (log st) ++ (resampled <$> images))%list.
Proof.
  revert st. induction images as [|img rest IH]; intros st Hr;
    cbn [resample_loop] in Hr.
  - injection Hr as <-. cbn. rewrite app_nil_r. reflexivity.
  - bind_ok Hr. rewrite (IH _ Hr). unfold resample_image in E.
    rewrite (iraf_wregister_touched _ _ _ _ _ _ E), touched_ensure_dir.
    cbn. rewrite <- app_assoc. reflexivity.
Qed.

Lemma read_resampled_visits (images : list image) (st st' : state)
    (hdus : list hdu) :
  read_resampled images st = Ok (hdus, st') →
  touched (log st') = (touched (log st) ++ (resampled <$> images))%list.
Proof.
  revert st hdus. induction images as [|img rest IH]; intros st hdus Hr;
    cbn [read_resampled] in Hr.
  - injection Hr as _ <-. cbn. rewrite app_nil_r. reflexivity.
  - bind_ok Hr. destruct r as [hdulist st1]. bind_ok Hr. bind_ok Hr.
    destruct r0 as [others st2]. injection Hr as _ <-.
    apply fits_open_spec in E. subst st1.
    rewrite (IH _ _ E1), touched_emit. cbn.
    rewrite <- app_assoc. reflexivity.
Qed.

Lemma seds_read_visits (images : list image) (st st' : state)
    (ws : list value) (data : list ndarray) :
  seds_read images st = Ok (ws, data, st') →
  touched (log st') = (touched (log st) ++ (resampled <$> images))%list.
Proof.
  revert st ws data. induction images as [|img rest IH]; intros st ws data Hr;
    cbn [seds_read] in Hr.
  - injection Hr as _ _ <-. cbn. rewrite app_nil_r. reflexivity.
  - bind_ok Hr. bind_ok Hr. destruct r0 as [hdulist st1]. bind_ok Hr.
    bind_ok Hr. destruct r1 as [[ws' data'] st2]. injection Hr as _ _ <-.
    apply fits_open_spec in E0. subst st1.
    rewrite (IH _ _ _ E2), touched_emit, touched_ensure_dir. cbn.
    rewrite <- app_assoc. reflexivity.
Qed.

Lemma convolve_images_visits (images : list image) (st st' : state) :
  convolve_images images st = Ok st' →
  touched (log st')
  = (touched (log st)
     ++ (images ≫= (λ img, [registered img; convolved img])))%list.
Proof.
  intros Hc. unfold convolve_images in Hc. bind_ok Hc.
  apply (convolve_loop_visits _ _ _ _ Hc).
Qed.

Lemma create_data_cube_visits (cfg : config) (images : list image)
    (st st' : state) :
  create_data_cube cfg images st = Ok st' →
  touched (log st')
  = (touched (log st) ++ (resampled <$> images)
     ++ [directory cfg ++ ["datacube"; "datacube.fits"]])%list.
Proof.
  intros Hc. unfold create_data_cube in Hc. bind_ok Hc.
  destruct r as [hdus st1]. bind_ok Hc. injection Hc as <-.
  unfold fits_writeto. rewrite touched_emit.
  cbn [log set_fs touched_by option_list].
  rewrite (read_resampled_visits _ _ _ _ E), touched_ensure_dir.
  rewrite <- !app_assoc. reflexivity.
Qed.

Lemma resample_images_visits (cfg : config) (images : list image)
    (st st' : state) :
  resample_images cfg images st = Ok st' →
  touched (log st')
  = (touched (log st) ++ (resampled <$> images) ++ (resampled <$> images)
     ++ [directory cfg ++ ["datacube"; "datacube.fits"]])%list.
Proof.
  intros Hr. unfold resample_images in Hr. do 8 bind_ok Hr.
  rewrite (create_data_cube_visits _ _ _ _ Hr).
  rewrite (resample_loop_visits _ _ _ E6).
  rewrite (iraf_ccsetwcs_touched _ _ _ _ _ _ _ _ _ E5).
  rewrite (iraf_mkpattern_touched _ _ _ _ _ E2).
  rewrite <- !app_assoc. reflexivity.
Qed.

Lemma output_seds_visits (images : list image) (st st' : state)
    (rows : list sed_row) :
  output_seds images st = Ok (rows, st') →
  touched (log st') = (touched (log st) ++ (resampled <$> images))%list.
Proof.
  intros Ho. unfold output_seds in Ho. bind_ok Ho.
  destruct r as [[ws data] st1]. bind_ok Ho. injection Ho as _ <-.
  rewrite touched_emit. cbn. rewrite app_nil_r.
  apply (seds_read_visits _ _ _ _ _ E).
Qed.

Lemma same_record_names (images images' : list image) :
  Forall2 same_record images images' →
  img_filename <$> images' = img_filename <$> images.
Proof.
  induction 1 as [|a b l l' (Hn & _) _ IH]; [reflexivity|].
  cbn. rewrite Hn, IH. reflexivity.
Qed.

Lemma same_record_sorted (images images' : list image) :
  Forall2 same_record images images' →
  sorted_by_wavelength images → sorted_by_wavelength images'.
Proof.
  intros Hs (ws & Hw & Hsorted). exists ws. split; [|assumption].
  clear Hsorted. revert ws Hw.
  induction Hs as [|a b l l' (_ & _ & Hh) _ IH]; intros ws Hw.
  - inversion Hw. constructor.
  - inversion Hw as [|? w ? ws' Ha Hl]; subst. constructor; [|apply IH, Hl].
    exact (eq_trans Hh Ha).
Qed.

(** The artifacts of a stage only depend on the names of the images. *)
Lemma artifacts_of_names (subdir suffix : string) (images images' : list image) :
  img_filename <$> images' = img_filename <$> images →
  (λ img, stage_filename subdir suffix (img_filename img)) <$> images'
  = (λ img, stage_filename subdir suffix (img_filename img)) <$> images.
Proof.
  revert images'. induction images as [|a l IH]; intros [|b l'] Hn;
    try discriminate Hn; [reflexivity|].
  cbn in Hn. injection Hn as Hb Hl. cbn. rewrite Hb, (IH _ Hl). reflexivity.
Qed.

Lemma convolution_artifacts_of_names (images images' : list image) :
  img_filename <$> images' = img_filename <$> images →
  images' ≫= (λ img, [registered img; convolved img])
  = images ≫= (λ img, [registered img; convolved img]).
Proof.
  revert images'. induction images as [|a l IH]; intros [|b l'] Hn;
    try discriminate Hn; [reflexivity|].
  cbn in Hn. injection Hn as Hb Hl. cbn. rewrite (IH _ Hl).
  unfold registered, convolved. rewrite Hb. reflexivity.
Qed.

Lemma run_stages_visits (cfg : config) (images : list image)
    (st st' : state) :
  run_stages cfg images st = Ok st' →
  touched (log st') = (touched (log st) ++ stage_visits cfg images)%list.
Proof.
  intros Hr. unfold run_stages in Hr. unfold stage_visits.
  bind_ok Hr. destruct r as [images1 st1].
  assert (Hconv : touched (log st1)
                  = (touched (log st)
                     ++ (if do_conversion cfg then converted <$> images
                         else []))%list
                  ∧ img_filename <$> images1 = img_filename <$> images).
  { destruct (do_conversion cfg).
    - destruct (convert_images_visits _ _ _ _ E) as [Hl Hs].
      split; [assumption|]. apply same_record_names. assumption.
    - injection E as <- <-. rewrite app_nil_r. split; reflexivity. }
  destruct Hconv as [Hl1 Hnames]. clear E.
  bind_ok Hr. rename r into st2.
  assert (Hl2 : touched (log st2)
                = (touched (log st1)
                   ++ (if do_registration cfg then registered <$> images
                       else []))%list).
  { destruct (do_registration cfg).
    - rewrite (register_images_visits _ _ _ _ E). f_equal.
      apply (artifacts_of_names "registered" "_registered.fits"), Hnames.
    - injection E as <-. rewrite app_nil_r. reflexivity. }
  clear E. bind_ok Hr. rename r into st3.
  assert (Hl3 : touched (log st3)
                = (touched (log st2)
                   ++ (if do_convolution cfg then
                         images ≫= (λ img, [registered img; convolved img])
                       else []))%list).
  { destruct (do_convolution cfg).
    - rewrite (convolve_images_visits _ _ _ E). f_equal.
      apply convolution_artifacts_of_names, Hnames.
    - injection E as <-. rewrite app_nil_r. reflexivity. }
  clear E. bind_ok Hr. rename r into st4.
  assert (Hres : resampled <$> images1 = resampled <$> images)
    by apply (artifacts_of_names "resampled" "_resampled.fits"), Hnames.
  assert (Hl4 : touched (log st4)
                = (touched (log st3)
                   ++ (if do_resampling cfg then
                         (resampled <$> images) ++ (resampled <$> images)
                         ++ [directory cfg ++ ["datacube"; "datacube.fits"]]
                       else []))%list).
  { destruct (do_resampling cfg).
    - rewrite (resample_images_visits _ _ _ _ E), Hres. reflexivity.
    - injection E as <-. rewrite app_nil_r. reflexivity. }
  clear E.
  assert (Hl5 : touched (log st')
                = (touched (log st4)
                   ++ (if do_seds cfg then resampled <$> images else []))%list).
  { destruct (do_seds cfg).
    - bind_ok Hr. destruct r as [rows st5]. injection Hr as <-.
      rewrite (output_seds_visits _ _ _ _ E), Hres. reflexivity.
    - injection Hr as <-. rewrite app_nil_r. reflexivity. }
  rewrite Hl5, Hl4, Hl3, Hl2, Hl1. rewrite <- !app_assoc. reflexivity.
Qed.

(** C7. Whatever the order of the input files, when ingestion succeeds the
    working collection is a rearrangement of the ingested images that is
    non-decreasing in the micron wavelength written back into WAVELENG; the
    conversion stage keeps that order and those wavelengths; and every
    enabled stage handles the science files of the images in the order of
    the collection. *)
Theorem working_collection_sorted (cfg : config) (all_files : list path)
    (st st1 : state) (unsorted : list image) :
  ingest all_files st = Ok (unsorted, st1) →
  ∃ images,
    load_images all_files st = Ok (images, st1)
    ∧ images ≡ₚ unsorted
    ∧ sorted_by_wavelength images
    ∧ (∀ images' st2, convert_images images st1 = Ok (images', st2) →
         sorted_by_wavelength images'
         ∧ img_filename <$> images' = img_filename <$> images)
    ∧ (∀ st2, run_stages cfg images st1 = Ok st2 →
         touched (log st2)
         = (touched (log st1) ++ stage_visits cfg images)%list).
Proof.
  intros Hi. destruct (ingest_spec _ _ _ _ Hi) as [Hw _].
  destruct (sort_by_waveleng _ Hw) as (images & Hsort & Hperm & Hsorted).
  exists images. split.
  { unfold load_images. rewrite Hi. cbn [mbind result_bind].
    rewrite Hsort. reflexivity. }
  split; [assumption|]. split; [assumption|]. split.
  - intros images' st2 Hc.
    destruct (convert_images_visits _ _ _ _ Hc) as [_ Hs]. split.
    + apply (same_record_sorted _ _ Hs Hsorted).
    + apply same_record_names. assumption.
  - intros st2. apply run_stages_visits.
Qed.

End properties.

(** ** The statements at the fixtures *)

Lemma fixture_float_pow_exact : @pow_exact fixture_float.
Proof.
  intros b z. unfold py_pow, fixture_float, Qc_of_Z. cbn [this].
  rewrite Qfloor_Z. reflexivity.
Qed.

(** The claimed value 43 fails on the SPIRE-only set with 250 and 350. *)
Lemma spire_250_350_fwhm_is_not_43 :
  instruments_with_wavelengths spire_set ∅
  = Ok {[ VStr "SPIRE" := [VNum (qc 250); VNum (qc 350)] ]}
  ∧ get_fwhm_value spire_set ≠ Ok (qc 43).
Proof. split; [vm_compute; reflexivity | vm_compute; discriminate]. Qed.

Lemma spire_250_350_fwhm_30_witness : get_fwhm_value spire_set = Ok (qc 30).
Proof.
  apply (spire_250_350_fwhm_30 spire_set [VNum (qc 250); VNum (qc 350)]).
  - vm_compute. reflexivity.
  - reflexivity.
Defined.

Lemma galex_factor_strict_threshold_witness :
  (qc 0.2 * UM_TO_ANGSTROM < qc 2000
   ∧ get_conversion_factor (H := fixture_float) galex_hdr (VStr "GALEX")
     = Ok (JY_CONVERSION * qc 1.40e-15 * (qc 0.2 * UM_TO_ANGSTROM) ^ 2
           / c_angstrom_per_s))
  ∧ get_conversion_factor (H := fixture_float) galex_2000_hdr (VStr "GALEX")
    = Ok (JY_CONVERSION * qc 2.06e-16 * qc 2000 ^ 2 / c_angstrom_per_s).
Proof.
  split.
  - destruct (galex_factor_strict_threshold (H := fixture_float)
                galex_hdr (qc 0.2) "micron") as (_ & Hf & Hfuv & _).
    + vm_compute. reflexivity.
    + assert (Hlt : qc 0.2 * UM_TO_ANGSTROM < qc 2000)
        by (vm_compute; reflexivity).
      split; [exact Hlt|]. rewrite Hf.
      rewrite (proj2 Hfuv Hlt). reflexivity.
  - destruct (galex_factor_strict_threshold (H := fixture_float)
                galex_2000_hdr (qc 2000 / UM_TO_ANGSTROM) "micron")
      as (_ & _ & _ & _ & H2000 & _).
    + vm_compute. reflexivity.
    + apply H2000. apply Qc_is_canon. vm_compute. reflexivity.
Defined.

Lemma conversion_factor_fixtures_witness :
  get_conversion_factor (H := fixture_float) irac_hdr (VStr "IRAC")
  = Ok (qc 2.3504e-5 * qc 1.2 ^ 2)
  ∧ get_native_pixelscale spire250_hdr (VStr "SPIRE") = Ok (VNum (qc 6))
  ∧ get_conversion_factor (H := fixture_float) spire250_hdr (VStr "SPIRE")
    = Ok (qc 36 / qc 423)
  ∧ get_conversion_factor (H := fixture_float) twomass_j_hdr (VStr "2MASS")
    = Ok (qc 1594 * Qc_zpow (qc 10) (-8))
  ∧ get_conversion_factor (H := fixture_float) pacs_hdr (VStr "PACS")
    = Ok (qc 1.0)
  ∧ get_conversion_factor (H := fixture_float) mips_hdr (VStr "MIPS")
    = Ok (qc 2.3504e-5 * qc 2.45 ^ 2).
Proof.
  apply (conversion_factor_fixtures (H := fixture_float)
           irac_hdr spire250_hdr twomass_j_hdr pacs_hdr mips_hdr
           (- qc 1.2) (qc 6 / qc 3600) (qc 2.45) "" "" "micron" "" "" "").
  - exact fixture_float_pow_exact.
  - qc_closed.
  - qc_closed.
  - qc_closed.
  - qc_closed.
  - qc_closed.
  - qc_closed.
  - qc_closed.
  - right. exists "Jy/Pixel", "". vm_compute. reflexivity.
  - qc_closed.
Defined.

Lemma twomass_filter_case_sensitive_witness :
  get_conversion_factor (H := fixture_float) twomass_upper_hdr (VStr "2MASS")
  = Ok 0
  ∧ get_wavelength twomass_upper_hdr = Ok (VNum (qc 1.2409), "micron").
Proof.
  destruct (twomass_filter_case_sensitive (H := fixture_float)
              twomass_upper_hdr (VStr "J") (qc 20.0) "" "")
    as [Hf Hw].
  - vm_compute. reflexivity.
  - discriminate.
  - discriminate.
  - discriminate.
  - vm_compute. reflexivity.
  - split; [exact Hf|].
    apply (Hw eq_refl eq_refl eq_refl "J" eq_refl). reflexivity.
Defined.

Lemma wavelength_to_microns_cases_witness :
  wavelength_to_microns (H := fixture_float) (VNum (qc 1528)) "micrometer"
  = Ok (qc 1528)
  ∧ wavelength_to_microns (H := fixture_float) (VNum (qc 1528)) "angstrom"
    = Ok (qc 1528 * qc 1e-4)
  ∧ wavelength_to_microns (H := fixture_float) (VStr "r") "nm" = Ok 1.
Proof.
  destruct (wavelength_to_microns_cases (H := fixture_float)
              (qc 1528) "micrometer") as (Hm & _ & _).
  destruct (wavelength_to_microns_cases (H := fixture_float)
              (qc 1528) "angstrom") as (_ & Ha & _).
  destruct (wavelength_to_microns_cases (H := fixture_float)
              (qc 1528) "nm") as (_ & _ & Hn).
  split; [|split].
  - apply Hm. rewrite !elem_of_cons. auto.
  - apply Ha. rewrite !elem_of_cons. auto.
  - apply Hn; rewrite ?elem_of_cons, ?elem_of_nil; intros Hx;
      repeat (destruct Hx as [Hx|Hx]; [discriminate Hx|]); exact Hx.
Defined.

(** The pixel array of the record is not scaled by the conversion stage. *)
Lemma convert_image_leaves_pixels :
  ∃ img' st' factor,
    convert_image (H := fixture_float) irac_img irac_dir = Ok (img', st')
    ∧ get_conversion_factor (H := fixture_float) irac_hdr (VStr "IRAC")
      = Ok factor
    ∧ img_data img' ≠ scale factor (img_data irac_img).
Proof.
  eexists _, _, _. split; [vm_compute; reflexivity|].
  split; [vm_compute; reflexivity|].
  vm_compute. intros Heq. congruence.
Qed.

Lemma convert_image_effect_witness :
  ∃ img' st',
    convert_image (H := fixture_float) irac_img irac_dir = Ok (img', st')
    ∧ img_data img' = img_data irac_img
    ∧ fst <$> img_header img' !! "BUNIT" = Some (VStr "Jy/pixel").
Proof.
  destruct (convert_image (H := fixture_float) irac_img irac_dir)
    as [[img' st']|e] eqn:E; [|vm_compute in E; discriminate E].
  exists img', st'. split; [reflexivity|].
  destruct (convert_image_effect (H := fixture_float) _ _ _ _ E)
    as (instrument & factor & _ & _ & Hd & _ & _ & Hb & _).
  split; assumption.
Defined.

(** A run over a directory holding one IRAC image, without RA/Dec, is not
    stopped: both stages complete and the grid is tagged with [nan]. *)
Lemma run_without_herschel_completes :
  get_instrument irac_hdr = Ok (VStr "IRAC")
  ∧ ra_input convert_and_register = None
  ∧ dec_input convert_and_register = None
  ∧ herschel_values [irac_img] "CRVAL1" = Ok []
  ∧ np_mean [] = Ok NaN
  ∧ ¬ (∃ e, get_herschel_mean [irac_img] "CRVAL1" = Raise e)
  ∧ ∃ st' grid xref yref xmag ymag,
      main (H := fixture_float) (H0 := fixture_services)
        convert_and_register [["data"; "i4.fits"]] irac_dir = Ok st'
      ∧ Ccsetwcs grid xref yref xmag ymag NaN NaN ∈ log st'.
Proof.
  split; [vm_compute; reflexivity|].
  split; [reflexivity|]. split; [reflexivity|].
  split; [vm_compute; reflexivity|]. split; [reflexivity|].
  split; [intros [e He]; vm_compute in He; discriminate He|].
  eexists _, _, _, _, _, _. split; [vm_compute; reflexivity|].
  do 5 apply list_elem_of_further. apply list_elem_of_here.
Qed.

Lemma reference_position_without_herschel_witness :
  get_herschel_mean [irac_img] "CRVAL1" = Ok NaN.
Proof.
  refine (proj1 (reference_position_without_herschel
                   (H0 := fixture_services)
                   convert_and_register [irac_img] irac_dir "CRVAL1"
                   eq_refl eq_refl _)).
  constructor; [|constructor].
  exists (VStr "IRAC"). split; [vm_compute; reflexivity|].
  split; discriminate.
Defined.

(** C3. After a run of every stage over the two SPIRE images, the cleanup
    operation removes converted, registered, convolved, resampled and seds,
    but the datacube directory and the cube in it are still there. *)
Theorem cleanup_leaves_datacube :
  ∃ st1 st2,
    main (H := fixture_float) (H0 := fixture_services) all_stages
      [["data"; "s350.fits"]; ["data"; "s250.fits"]] spire_dir = Ok st1
    ∧ main (H := fixture_float) (H0 := fixture_services) only_cleanup
        [] st1 = Ok st2
    ∧ Forall (λ d, isdir st1 ["data"; d] = true) ("datacube" :: cleaned_dirs)
    ∧ Forall (λ d, isdir st2 ["data"; d] = false) cleaned_dirs
    ∧ isdir st2 ["data"; "datacube"] = true
    ∧ is_Some (fs st2 !! ["data"; "datacube"; "datacube.fits"]).
Proof.
  eexists _, _. split; [vm_compute; reflexivity|].
  split; [vm_compute; reflexivity|].
  split; [repeat constructor|].
  split; [repeat constructor|].
  split; [vm_compute; reflexivity|].
  vm_compute. eauto.
Qed.

Lemma working_collection_sorted_witness :
  ∃ images st1,
    load_images (H := fixture_float)
      [["data"; "s350.fits"]; ["data"; "s250.fits"]] spire_dir
    = Ok (images, st1)
    ∧ sorted_by_wavelength images
    ∧ img_filename <$> images = [["data"; "s250"]; ["data"; "s350"]].
Proof.
  destruct (ingest (H := fixture_float)
              [["data"; "s350.fits"]; ["data"; "s250.fits"]] spire_dir)
    as [[unsorted st1]|e] eqn:E; [|vm_compute in E; discriminate E].
  destruct (working_collection_sorted (H := fixture_float)
              (H0 := fixture_services) all_stages _ _ _ _ E)
    as (images & Hl & _ & Hs & _).
  exists images, st1. split; [assumption|]. split; [assumption|].
  vm_compute in Hl. injection Hl as <- _. reflexivity.
Defined.

(** * Further properties of the resolver and the flux engine *)

(** A closed rational is not negative. *)
Ltac qc_nonneg := unfold Qcle, Qle; vm_compute; discriminate.

Section further.
Context `{PyFloat} `{Services}.

Lemma getitem_none (header : fits_header) (key : string) :
  header !! key = None → getitem header key = Raise (KeyError key).
Proof.
  intros Hk. unfold getitem. unfold card in *. rewrite Hk. reflexivity.
Qed.

(** X1. Instrument resolution terminates the run exactly when none of the
    keywords INSTRUME, INF0001 and ORIGIN is in the header: with any of them
    present it returns a tag or fails on the type of the value. *)
Theorem get_instrument_exit_iff (header : fits_header) :
  get_instrument header = Raise SystemExit
  ↔ header !! "INSTRUME" = None ∧ header !! "INF0001" = None
    ∧ header !! "ORIGIN" = None.
Proof.
  split; [|intros (H1 & H2 & H3); apply get_instrument_no_keyword; assumption].
  unfold get_instrument, contains, getitem.
  destruct (header !! "INSTRUME") as [[v c]|] eqn:H1.
  { rewrite bool_decide_eq_true_2 by eauto. discriminate. }
  rewrite bool_decide_eq_false_2 by (intros [x Hx]; discriminate Hx).
  destruct (header !! "INF0001") as [[v c]|] eqn:H2.
  { rewrite bool_decide_eq_true_2 by eauto. cbn [mbind result_bind fst].
    destruct v as [s|q]; cbn [str_in mbind result_bind]; [|discriminate].
    destruct (bool_decide _); discriminate. }
  rewrite bool_decide_eq_false_2 by (intros [x Hx]; discriminate Hx).
  destruct (header !! "ORIGIN") as [[v c]|] eqn:H3.
  { rewrite bool_decide_eq_true_2 by eauto. cbn [mbind result_bind fst].
    destruct v as [s|q]; cbn [str_in mbind result_bind]; [|discriminate].
    destruct (bool_decide _); discriminate. }
  auto.
Qed.

Lemma Qcabs_nonneg (q : Qc) : 0 ≤ Qcabs q.
Proof.
  unfold Qcabs. destruct (decide (q < 0)) as [Hneg|Hpos].
  - apply Qclt_le_weak, Qcopp_le_compat in Hneg. exact Hneg.
  - apply Qcnot_lt_le. assumption.
Qed.

Lemma Qcmult_nonneg (a b : Qc) : 0 ≤ a → 0 ≤ b → 0 ≤ a * b.
Proof.
  intros Ha Hb. rewrite <- (Qcmult_0_l b).
  apply Qcmult_le_compat_r; assumption.
Qed.

Lemma Qcsquare_nonneg (p : Qc) : 0 ≤ p ^ 2.
Proof.
  cbn [Qcpower]. rewrite Qcmult_1_r.
  destruct (Qclt_le_dec p 0) as [Hneg|Hpos].
  - replace (p * p) with ((- p) * (- p)) by ring.
    apply Qclt_le_weak, Qcopp_le_compat in Hneg.
    apply Qcmult_nonneg; exact Hneg.
  - apply Qcmult_nonneg; assumption.
Qed.

Lemma py_abs_ok (v : value) (a : Qc) :
  py_abs v = Ok a → ∃ q, v = VNum q ∧ a = Qcabs q.
Proof.
  destruct v as [s|q]; [discriminate|]. intros Ha. injection Ha as <-. eauto.
Qed.

(** X2. Apart from MIPS, whose PLTSCALE is handed back untouched, the
    native pixel scale that is returned is a number and is never negative;
    for an instrument without its own rule and without CDELT2 it is 0. *)
Theorem native_pixelscale_nonneg (header : fits_header) (instrument v : value) :
  instrument ≠ VStr "MIPS" →
  get_native_pixelscale header instrument = Ok v →
  (∃ q, v = VNum q ∧ 0 ≤ q)
  ∧ (instrument ≠ VStr "IRAC" → instrument ≠ VStr "SPIRE" →
     header !! "CDELT2" = None → v = VNum 0).
Proof.
  intros Hm Hp. unfold get_native_pixelscale in Hp.
  assert (Hdeg : ∀ a, 0 ≤ deg_to_arcsec (Qcabs a)).
  { intros a. apply Qcmult_nonneg; [apply Qcabs_nonneg|qc_nonneg]. }
  case_bool_decide as Hi.
  { do 2 bind_ok Hp. injection Hp as <-.
    apply py_abs_ok in E0 as (q & _ & ->).
    split; [|congruence]. eexists. split; [reflexivity|apply Qcabs_nonneg]. }
  case_bool_decide as Hm'; [congruence|].
  case_bool_decide as Hs.
  { do 2 bind_ok Hp. injection Hp as <-.
    apply py_abs_ok in E0 as (q & _ & ->). split; [|congruence].
    eexists. split; [reflexivity|apply Hdeg]. }
  destruct (contains "CDELT2" header) eqn:Hc.
  - do 2 bind_ok Hp. injection Hp as <-.
    apply py_abs_ok in E0 as (q & _ & ->). split.
    + eexists. split; [reflexivity|apply Hdeg].
    + intros _ _ Hn. rewrite (contains_none _ _ Hn) in Hc. discriminate Hc.
  - injection Hp as <-. split; [|reflexivity].
    exists 0. split; [reflexivity|apply Qcle_refl].
Qed.

(** X3. For a tag outside the six known instruments the conversion factor
    is 0 for every header and nothing is raised; the same holds for SPIRE
    when the wavelength is none of 250, 350 and 500, provided CDELT2 is a
    number. *)
Theorem conversion_factor_zero_sentinel (header : fits_header)
    (instrument : value) :
  (instrument ∉ known_instruments →
     get_conversion_factor header instrument = Ok 0)
  ∧ (∀ d c w c', header !! "CDELT2" = Some (VNum d, c) →
       header !! "WAVELENG" = Some (w, c') →
       w ≠ VNum (qc 250) → w ≠ VNum (qc 350) → w ≠ VNum (qc 500) →
       get_conversion_factor header (VStr "SPIRE") = Ok 0).
Proof.
  split.
  - unfold known_instruments. rewrite !not_elem_of_cons.
    intros (H1 & H2 & H3 & H4 & H5 & H6 & _).
    unfold get_conversion_factor. branches; reflexivity.
  - intros d c w c' Hd Hw H1 H2 H3.
    unfold get_conversion_factor, get_native_pixelscale.
    rewrite (getitem_lookup _ _ _ _ Hd), (getitem_lookup _ _ _ _ Hw).
    cbn [mbind result_bind py_abs as_num fmap result_fmap].
    branches; reflexivity.
Qed.

(** X4. Whenever a conversion factor is returned it is not negative,
    provided powers of ten are not. *)
Theorem conversion_factor_nonneg (header : fits_header) (instrument : value)
    (factor : Qc) :
  (∀ x, 0 ≤ py_pow (qc 10) x) →
  get_conversion_factor header instrument = Ok factor →
  0 ≤ factor.
Proof.
  intros Hpow Hf. unfold get_conversion_factor in Hf.
  assert (Hk : 0 ≤ MJY_PER_SR_TO_JY_PER_PIXEL) by qc_nonneg.
  case_bool_decide.
  { do 2 bind_ok Hf. injection Hf as <-.
    apply Qcmult_nonneg; [exact Hk|apply Qcsquare_nonneg]. }
  case_bool_decide.
  { do 2 bind_ok Hf. injection Hf as <-.
    apply Qcmult_nonneg; [exact Hk|apply Qcsquare_nonneg]. }
  case_bool_decide.
  { do 2 bind_ok Hf. injection Hf as <-.
    unfold Qcdiv.
    apply Qcmult_nonneg; [|qc_nonneg].
    apply Qcmult_nonneg; [|apply Qcsquare_nonneg].
    apply Qcmult_nonneg; [qc_nonneg|].
    unfold f_lambda_con. destruct (decide _); qc_nonneg. }
  case_bool_decide.
  { do 3 bind_ok Hf. injection Hf as <-.
    apply Qcmult_nonneg; [|apply Hpow].
    unfold fvega. repeat case_bool_decide; qc_nonneg. }
  case_bool_decide.
  { bind_ok Hf. injection Hf as <-. qc_nonneg. }
  case_bool_decide; [|injection Hf as <-; apply Qcle_refl].
  do 2 bind_ok Hf.
  assert (Hdiv : ∀ p b, 0 ≤ / b → 0 ≤ p ^ 2 / b).
  { intros p b Hb. unfold Qcdiv.
    apply Qcmult_nonneg; [apply Qcsquare_nonneg|exact Hb]. }
  repeat case_bool_decide.
  - bind_ok Hf. injection Hf as <-. apply Hdiv. qc_nonneg.
  - bind_ok Hf. injection Hf as <-. apply Hdiv. qc_nonneg.
  - bind_ok Hf. injection Hf as <-. apply Hdiv. qc_nonneg.
  - injection Hf as <-. apply Qcle_refl.
Qed.

(** X5. The wavelength of an ingested image resolves again to the same
    number of microns: reading WAVELENG back from its header and normalising
    it gives the value ingestion wrote, which is also the key of the sort. *)
Theorem ingested_wavelength_round_trip (i : path) (st st' : state)
    (img : image) :
  ingest_file i st = Ok (img, st') →
  ∃ w, get_wavelength (img_header img) = Ok (VNum w, "micron")
       ∧ wavelength_to_microns (VNum w) "micron" = Ok w
       ∧ waveleng img = Ok (VNum w).
Proof.
  intros Hi. destruct (ingest_file_spec _ _ _ _ Hi) as [_ [w Hw]].
  exists w. split; [|split].
  - unfold get_wavelength, getcomment.
    rewrite (contains_lookup _ _ _ Hw), (getitem_lookup _ _ _ _ Hw), Hw.
    reflexivity.
  - reflexivity.
  - apply micron_wavelength_key. exact Hw.
Qed.

(** X6. A file whose primary header has none of WAVELENG, WAVELNTH and
    FILTER is not rejected for that.  Unless the header announces a data
    cube (EXTEND and DSETS___ both present) that the file does not hold, the
    file is ingested: the only effect is the read, the wavelength is
    recorded as 1 micron and every other keyword is as in the file.  When
    the cube is announced and the file has no second unit, ingestion raises
    [IndexError]. *)
Theorem ingest_without_wavelength (i : path) (st : state) (primary : hdu)
    (extensions : list hdu) :
  fs st !! i = Some (FitsFile (primary :: extensions)) →
  hdu_header primary !! "WAVELENG" = None →
  hdu_header primary !! "WAVELNTH" = None →
  hdu_header primary !! "FILTER" = None →
  (contains "EXTEND" (hdu_header primary)
   && contains "DSETS___" (hdu_header primary) = false
   ∨ extensions ≠ [] →
   ∃ img,
     ingest_file i st = Ok (img, emit (ReadFits i) st)
     ∧ img_header img !! "WAVELENG" = Some (VNum 1, "micron")
     ∧ ∀ key, key ≠ "WAVELENG" →
         img_header img !! key = hdu_header primary !! key)
  ∧ (contains "EXTEND" (hdu_header primary)
     && contains "DSETS___" (hdu_header primary) = true →
     extensions = [] →
     ingest_file i st = Raise IndexError).
Proof.
  intros Hf H1 H2 H3. unfold ingest_file, fits_open. rewrite Hf.
  cbn [mbind result_bind index lookup list_lookup].
  assert (Hw : get_wavelength (hdu_header primary) = Ok (VNum 0, "")).
  { unfold get_wavelength. rewrite !contains_none by assumption.
    reflexivity. }
  assert (Hcards : ∀ data name,
            let img := Image data
                         (setcard (hdu_header primary) "WAVELENG" (VNum 1)
                            "micron") name in
            img_header img !! "WAVELENG" = Some (VNum 1, "micron")
            ∧ ∀ key, key ≠ "WAVELENG" →
                img_header img !! key = hdu_header primary !! key).
  { intros data name img. cbn [img img_header]. unfold setcard. split.
    - apply lookup_insert_eq.
    - intros key Hk. apply lookup_insert_ne. congruence. }
  destruct (contains "EXTEND" (hdu_header primary)
            && contains "DSETS___" (hdu_header primary)) eqn:Hcube.
  - destruct extensions as [|second rest].
    + split; [intros [Hc|Hne]; [discriminate Hc|contradiction]|].
      intros _ _. reflexivity.
    + split; [|intros _ Hnil; discriminate Hnil]. intros _.
      cbn [fmap result_fmap mbind result_bind]. rewrite Hw.
      cbn [mbind result_bind fst snd].
      eexists. split; [reflexivity|]. apply Hcards.
  - split; [|intros Hc; discriminate Hc]. intros _.
    cbn [mbind result_bind]. rewrite Hw. cbn [mbind result_bind fst snd].
    eexists. split; [reflexivity|]. apply Hcards.
Qed.

Lemma wavelength_range_fold (ws : list value) (lower upper : Qc) (acc : bool) :
  foldl (λ return_value i,
           if value_ge_num i lower && value_le_num i upper then true
           else return_value) acc ws = true
  ↔ acc = true ∨ ∃ w, VNum w ∈ ws ∧ lower ≤ w ∧ w ≤ upper.
Proof.
  revert acc. induction ws as [|v ws IH]; intros acc; cbn [foldl].
  - split; [auto|]. intros [Ha|(w & Hin & _)]; [exact Ha|].
    apply elem_of_nil in Hin. contradiction.
  - rewrite IH. split.
    + intros [Hacc|(w & Hin & Hw)].
      * destruct (value_ge_num v lower && value_le_num v upper) eqn:Hv;
          [|auto].
        right. destruct v as [s|q]; cbn in Hv; [discriminate Hv|].
        apply andb_true_iff in Hv as [Hl Hu].
        apply bool_decide_eq_true in Hl, Hu.
        exists q. split; [apply list_elem_of_here|auto].
      * right. exists w. split; [apply list_elem_of_further, Hin|exact Hw].
    + intros [Hacc|(w & Hin & Hl & Hu)].
      * left. rewrite Hacc. destruct (_ && _); reflexivity.
      * apply elem_of_cons in Hin as [<-|Hin].
        -- left. cbn. rewrite !bool_decide_eq_true_2 by assumption.
           reflexivity.
        -- right. exists w. auto.
Qed.

Lemma wavelength_range_iff (wavelengths : list value) (lower upper : Qc) :
  wavelength_range wavelengths lower upper = true
  ↔ ∃ w, VNum w ∈ wavelengths ∧ lower ≤ w ∧ w ≤ upper.
Proof.
  unfold wavelength_range. rewrite wavelength_range_fold.
  split; [intros [Hf|Hw]; [discriminate Hf|exact Hw]|auto].
Qed.

(** X7. [wavelength_range] answers true exactly when some numeric entry of
    the list lies between the bounds, both included; entries that are
    strings never count. *)
Theorem wavelength_range_spec (wavelengths : list value) (lower upper : Qc) :
  wavelength_range wavelengths lower upper = true
  ↔ ∃ w, VNum w ∈ wavelengths ∧ lower ≤ w ∧ w ≤ upper.
Proof. apply wavelength_range_iff. Qed.

Lemma fwhm_of_no_entry (d : gmap value (list value)) :
  d !! VStr "MIPS" = None → d !! VStr "SPIRE" = None →
  d !! VStr "PACS" = None → fwhm_of d = 0.
Proof.
  intros Hm Hs Hp. unfold fwhm_of, band. rewrite Hm, Hs, Hp. reflexivity.
Qed.

(** X8. The common FWHM is always one of the ten values of the table:
    76, 43, 37, 30, 22, 18, 13, 12.5, 10.5 or 0. *)
Theorem fwhm_value_in_table (images : list image) (fwhm : Qc) :
  get_fwhm_value images = Ok fwhm →
  fwhm ∈ [qc 76; qc 43; qc 37; qc 30; qc 22; qc 18; qc 13; qc 12.5;
          qc 10.5; 0].
Proof.
  intros Hf. unfold get_fwhm_value in Hf. bind_ok Hf. injection Hf as <-.
  unfold fwhm_of. rewrite !elem_of_cons.
  repeat (destruct (band r _ _ _); [tauto|]). tauto.
Qed.

Lemma add_wavelength_lookup (d : gmap value (list value)) (k w k' : value) :
  default [] (add_wavelength d k w !! k')
  = if decide (k = k') then (default [] (d !! k') ++ [w])%list
    else default [] (d !! k').
Proof.
  unfold add_wavelength. destruct (decide (k = k')) as [<-|Hne].
  - destruct (d !! k) as [ws|]; rewrite lookup_insert_eq; reflexivity.
  - destruct (d !! k) as [ws|]; rewrite lookup_insert_ne by exact Hne;
      reflexivity.
Qed.

Lemma add_wavelength_is_Some (d : gmap value (list value)) (k w k' : value) :
  is_Some (add_wavelength d k w !! k') ↔ is_Some (d !! k') ∨ k = k'.
Proof.
  unfold add_wavelength. destruct (decide (k = k')) as [<-|Hne].
  - destruct (d !! k) as [ws|] eqn:Hd; rewrite lookup_insert_eq;
      split; eauto.
  - destruct (d !! k) as [ws|]; rewrite lookup_insert_ne by exact Hne;
      split; auto; intros [Hs|He]; [exact Hs|contradiction|exact Hs|contradiction].
Qed.

Lemma instruments_with_wavelengths_spec (images : list image)
    (d0 d : gmap value (list value)) :
  instruments_with_wavelengths images d0 = Ok d →
  ∀ k,
    (is_Some (d !! k)
     ↔ is_Some (d0 !! k) ∨ ∃ img w, img ∈ images ∧ seen_as img k w)
    ∧ ∀ w, w ∈ default [] (d !! k)
           ↔ w ∈ default [] (d0 !! k) ∨ ∃ img, img ∈ images ∧ seen_as img k w.
Proof.
  revert d0. induction images as [|img rest IH]; intros d0 Hd k;
    cbn [instruments_with_wavelengths] in Hd.
  - injection Hd as <-. split; [|intros w]; split; auto.
    + intros [Hs|(img & w & Hin & _)]; [exact Hs|].
      apply elem_of_nil in Hin. contradiction.
    + intros [Hs|(img & Hin & _)]; [exact Hs|].
      apply elem_of_nil in Hin. contradiction.
  - do 2 bind_ok Hd. destruct r0 as [w0 u0]. cbn [fst] in Hd.
    destruct (IH _ Hd k) as [IHs IHw]. split.
    + rewrite IHs, add_wavelength_is_Some. split.
      * intros [[Hs| <-]|(img' & w & Hin & Hseen)]; [auto| |].
        -- right. exists img, w0. split; [apply list_elem_of_here|].
           split; [exact E|eauto].
        -- right. exists img', w. split; [apply list_elem_of_further, Hin|].
           exact Hseen.
      * intros [Hs|(img' & w & Hin & Hseen)]; [auto|].
        apply elem_of_cons in Hin as [->|Hin].
        -- left. right. destruct Hseen as [Hk _]. congruence.
        -- right. eauto.
    + intros w. rewrite IHw, add_wavelength_lookup. split.
      * intros [Hin|(img' & Hin & Hseen)].
        -- destruct (decide (r = k)) as [->|Hne]; [|auto].
           apply elem_of_app in Hin as [Hin|Hin]; [auto|].
           apply list_elem_of_singleton in Hin as ->.
           right. exists img. split; [apply list_elem_of_here|].
           split; [exact E|eauto].
        -- right. exists img'. split; [apply list_elem_of_further, Hin|].
           exact Hseen.
      * intros [Hin|(img' & Hin & Hseen)].
        -- left. destruct (decide (r = k)); [|exact Hin].
           apply elem_of_app. auto.
        -- apply elem_of_cons in Hin as [->|Hin]; [|eauto].
           left. destruct Hseen as [Hk [u Hw]].
           rewrite E in Hk. injection Hk as ->.
           rewrite E0 in Hw. injection Hw as -> _.
           rewrite decide_True by reflexivity.
           apply elem_of_app. right. apply list_elem_of_here.
Qed.

Lemma dictionary_contents (images : list image)
    (d : gmap value (list value)) (k : value) :
  instruments_with_wavelengths images ∅ = Ok d →
  (is_Some (d !! k) ↔ ∃ img w, img ∈ images ∧ seen_as img k w)
  ∧ ∀ w, w ∈ default [] (d !! k) ↔ ∃ img, img ∈ images ∧ seen_as img k w.
Proof.
  intros Hd. destruct (instruments_with_wavelengths_spec _ _ _ Hd k)
    as [Hs Hw]. split.
  - rewrite Hs, lookup_empty. split; [|auto].
    intros [[x Hx]|Hi]; [discriminate Hx|exact Hi].
  - intros w. rewrite Hw, lookup_empty. split; [|auto].
    intros [Hin|Hi]; [|exact Hi]. apply elem_of_nil in Hin. contradiction.
Qed.

(** X9. The dictionary built by [get_fwhm_value] has an entry for an
    instrument exactly when some image resolves to it, and the entry holds
    exactly the wavelength values of those images. *)
Theorem instrument_dictionary_contents (images : list image)
    (d : gmap value (list value)) (k : value) :
  instruments_with_wavelengths images ∅ = Ok d →
  (is_Some (d !! k) ↔ ∃ img w, img ∈ images ∧ seen_as img k w)
  ∧ ∀ w, w ∈ default [] (d !! k) ↔ ∃ img, img ∈ images ∧ seen_as img k w.
Proof. apply dictionary_contents. Qed.

Lemma band_spec (images : list image) (d : gmap value (list value))
    (name : string) (lower upper : Qc) :
  instruments_with_wavelengths images ∅ = Ok d →
  band d name lower upper = true
  ↔ ∃ img w, img ∈ images ∧ seen_as img (VStr name) (VNum w)
             ∧ lower ≤ w ∧ w ≤ upper.
Proof.
  intros Hd.
  destruct (dictionary_contents _ _ (VStr name) Hd) as [_ Hw].
  unfold band. destruct (d !! VStr name) as [ws|] eqn:Hl; cbn in Hw.
  - rewrite wavelength_range_iff. split.
    + intros (w & Hin & Hb). apply Hw in Hin as (img & Hin & Hseen). eauto.
    + intros (img & w & Hin & Hseen & Hb). exists w. split; [|exact Hb].
      apply Hw. eauto.
  - split; [discriminate|].
    intros (img & w & Hin & Hseen & _).
    assert (Hx : VNum w ∈ @nil value) by (apply Hw; eauto).
    apply elem_of_nil in Hx. contradiction.
Qed.

Lemma instruments_with_wavelengths_total (images : list image)
    (d0 : gmap value (list value)) :
  (∃ d, instruments_with_wavelengths images d0 = Ok d)
  ↔ Forall (λ img, ∃ k w, seen_as img k w) images.
Proof.
  revert d0. induction images as [|img rest IH]; intros d0;
    cbn [instruments_with_wavelengths].
  - split; [constructor|eauto].
  - split.
    + intros [d Hd]. do 2 bind_ok Hd. destruct r0 as [w u].
      constructor; [|apply (IH (add_wavelength d0 r w)); eauto].
      exists r, w. split; [exact E|eauto].
    + intros Hf. apply Forall_cons in Hf as [(k & w & Hk & u & Hw) Hf].
      rewrite Hk, Hw. cbn [mbind result_bind]. apply IH. exact Hf.
Qed.

(** X10. The common FWHM does not depend on the order of the images: any
    rearrangement of a collection for which it is found gives the same
    value. *)
Theorem fwhm_order_independent (images images' : list image) (fwhm : Qc) :
  images ≡ₚ images' →
  get_fwhm_value images = Ok fwhm →
  get_fwhm_value images' = Ok fwhm.
Proof.
  intros Hp Hf. unfold get_fwhm_value in *. bind_ok Hf. rename r into d.
  injection Hf as <-.
  assert (Ht : ∃ d', instruments_with_wavelengths images' ∅ = Ok d').
  { apply instruments_with_wavelengths_total. rewrite <- Hp.
    apply (instruments_with_wavelengths_total images ∅). eauto. }
  destruct Ht as [d' Hd']. rewrite Hd'. cbn [fmap result_fmap]. f_equal.
  assert (Hb : ∀ name lower upper,
             band d' name lower upper = band d name lower upper).
  { intros name lower upper. apply eq_true_iff_eq.
    rewrite (band_spec _ _ _ _ _ E), (band_spec _ _ _ _ _ Hd').
    split; intros (img & w & Hin & Hrest); exists img, w;
      (split; [|exact Hrest]); [rewrite Hp|rewrite <- Hp]; exact Hin. }
  unfold fwhm_of. rewrite !Hb. reflexivity.
Qed.

(** X11. When no image resolves to MIPS, SPIRE or PACS, and every image
    resolves to some instrument and wavelength, the common FWHM is 0; in
    particular it is 0 for an empty collection. *)
Theorem fwhm_zero_without_far_infrared (images : list image) :
  Forall (λ img, ∃ k w, seen_as img k w ∧ k ≠ VStr "MIPS"
                        ∧ k ≠ VStr "SPIRE" ∧ k ≠ VStr "PACS") images →
  get_fwhm_value images = Ok 0.
Proof.
  intros Hf.
  assert (Ht : ∃ d, instruments_with_wavelengths images ∅ = Ok d).
  { apply instruments_with_wavelengths_total.
    eapply Forall_impl; [exact Hf|]. intros img (k & w & Hs & _). eauto. }
  destruct Ht as [d Hd]. unfold get_fwhm_value. rewrite Hd.
  cbn [fmap result_fmap]. f_equal.
  assert (Hnone : ∀ name, name ∈ ["MIPS"; "SPIRE"; "PACS"] →
                          d !! VStr name = None).
  { intros name Hn.
    destruct (dictionary_contents _ _ (VStr name) Hd) as [Hs _].
    apply eq_None_not_Some. rewrite Hs. intros (img & w & Hin & Hk & _).
    rewrite Forall_forall in Hf.
    destruct (Hf _ Hin) as (k & w' & [Hk' _] & H1 & H2 & H3).
    rewrite Hk in Hk'. injection Hk' as <-.
    rewrite !elem_of_cons, elem_of_nil in Hn.
    destruct Hn as [->|[->|[->|[]]]]; congruence. }
  apply fwhm_of_no_entry; apply Hnone; rewrite !elem_of_cons; auto.
Qed.

(** *** Reference position *)

Lemma sum_replicate (n : nat) (x : Qc) :
  foldr Qcplus 0 (replicate n x) = x * Qc_of_Z (Z.of_nat n).
Proof.
  induction n as [|n IH].
  - change (Z.of_nat 0) with 0%Z. rewrite Z2Qc_inj_0.
    cbn [replicate foldr]. ring.
  - cbn [replicate foldr]. rewrite IH, Nat2Z.inj_succ, <- Z.add_1_l.
    rewrite Z2Qc_inj_add, Z2Qc_inj_1. ring.
Qed.

Lemma as_nums_replicate (n : nat) (x : Qc) :
  as_nums (replicate n (VNum x)) = Ok (replicate n x).
Proof.
  induction n as [|n IH]; [reflexivity|].
  cbn [replicate as_nums as_num mbind result_bind]. rewrite IH. reflexivity.
Qed.

Lemma herschel_values_constant (images : list image) (keyword : string)
    (x : Qc) :
  Forall (λ img, ∃ k, get_instrument (img_header img) = Ok k
                      ∧ (is_herschel k →
                         ∃ c, img_header img !! keyword = Some (VNum x, c)))
    images →
  ∃ n, herschel_values images keyword = Ok (replicate n (VNum x))
       ∧ ((∃ img k, img ∈ images ∧ get_instrument (img_header img) = Ok k
                    ∧ is_herschel k) → n ≠ 0%nat).
Proof.
  induction 1 as [|img rest (k & Hk & Hx) _ (n & IH & Hn)].
  - exists 0%nat. split; [reflexivity|].
    intros (img & k & Hin & _). apply elem_of_nil in Hin. contradiction.
  - cbn [herschel_values]. rewrite Hk. cbn [mbind result_bind].
    destruct (bool_decide (k = VStr "PACS") || bool_decide (k = VStr "SPIRE"))
      eqn:Hh.
    + destruct Hx as [c Hc].
      { apply orb_true_iff in Hh as [Hh|Hh]; apply bool_decide_eq_true in Hh;
          [left|right]; exact Hh. }
      rewrite (getitem_lookup _ _ _ _ Hc). cbn [mbind result_bind].
      rewrite IH. exists (S n). split; [reflexivity|]. intros _. discriminate.
    + exists n. split; [exact IH|].
      intros (img' & k' & Hin & Hk' & Hher). apply Hn.
      apply elem_of_cons in Hin as [->|Hin]; [|eauto].
      rewrite Hk in Hk'. injection Hk' as <-.
      apply orb_false_iff in Hh as [H1 H2].
      apply bool_decide_eq_false in H1, H2. destruct Hher; contradiction.
Qed.

(** X12. When every image resolves to an instrument, every PACS or SPIRE
    image carries the same number x under the keyword, and there is at
    least one such image, the Herschel mean is x: with a single Herschel
    image the reference coordinate is that image's own. *)
Theorem herschel_mean_of_equal_values (images : list image)
    (keyword : string) (x : Qc) :
  Forall (λ img, ∃ k, get_instrument (img_header img) = Ok k
                      ∧ (is_herschel k →
                         ∃ c, img_header img !! keyword = Some (VNum x, c)))
    images →
  (∃ img k, img ∈ images ∧ get_instrument (img_header img) = Ok k
            ∧ is_herschel k) →
  get_herschel_mean images keyword = Ok (Finite x).
Proof.
  intros Hf Hex.
  destruct (herschel_values_constant _ _ _ Hf) as (n & Hv & Hn).
  specialize (Hn Hex). unfold get_herschel_mean, np_mean.
  rewrite Hv. cbn [mbind result_bind]. rewrite as_nums_replicate.
  cbn [mbind result_bind]. destruct n as [|n]; [contradiction|].
  cbn [replicate]. change (x :: replicate n x) with (replicate (S n) x).
  rewrite sum_replicate, length_replicate. do 2 f_equal.
  apply Qcdiv_mult_l. rewrite <- Z2Qc_inj_0. intros Hz.
  apply Z2Qc_inj in Hz. discriminate Hz.
Qed.

(** X13. When every image resolves to an instrument and some PACS or SPIRE
    image lacks the keyword, the Herschel mean raises the [KeyError] of that
    keyword. *)
Theorem herschel_mean_missing_keyword (images : list image)
    (keyword : string) :
  Forall (λ img, ∃ k, get_instrument (img_header img) = Ok k) images →
  (∃ img k, img ∈ images ∧ get_instrument (img_header img) = Ok k
            ∧ is_herschel k ∧ img_header img !! keyword = None) →
  get_herschel_mean images keyword = Raise (KeyError keyword).
Proof.
  intros Hf Hex. unfold get_herschel_mean.
  enough (Hv : herschel_values images keyword = Raise (KeyError keyword))
    by (rewrite Hv; reflexivity).
  induction Hf as [|img rest [k Hk] _ IH].
  - destruct Hex as (img & k & Hin & _). apply elem_of_nil in Hin.
    contradiction.
  - cbn [herschel_values]. rewrite Hk. cbn [mbind result_bind].
    destruct Hex as (img' & k' & Hin & Hk' & Hher & Hnone).
    apply elem_of_cons in Hin as [Heq|Hin].
    + subst img'. rewrite Hk in Hk'. injection Hk' as <-.
      assert (Hb : bool_decide (k = VStr "PACS")
                   || bool_decide (k = VStr "SPIRE") = true).
      { apply orb_true_iff.
        destruct Hher as [Hp|Hs]; [left|right]; apply bool_decide_eq_true;
          assumption. }
      rewrite Hb, (getitem_none _ _ Hnone). reflexivity.
    + assert (Hrest : herschel_values rest keyword = Raise (KeyError keyword))
        by (apply IH; exists img', k'; auto).
      destruct (_ || _); [|exact Hrest].
      unfold getitem. destruct (img_header img !! keyword) as [c|];
        [|reflexivity].
      cbn [mbind result_bind]. rewrite Hrest. reflexivity.
Qed.

(** *** Registration *)

Lemma log_ensure_dir (d : path) (st : state) :
  ∃ pre, log (ensure_dir d st) = (log st ++ pre)%list
         ∧ (pre = [] ∨ pre = [Makedirs d]).
Proof.
  unfold ensure_dir. destruct (path_exists st d).
  - exists []. split; [rewrite app_nil_r; reflexivity|auto].
  - exists [Makedirs d]. split; [reflexivity|auto].
Qed.

Lemma register_image_events (cfg : config) (lngref latref : npfloat)
    (img : image) (st st' : state) :
  register_image cfg lngref latref img st = Ok st' →
  ∃ instrument size pixelscale ncols pre,
    get_instrument (img_header img) = Ok instrument
    ∧ get_native_pixelscale (img_header img) instrument = Ok (VNum pixelscale)
    ∧ phys_size cfg = Some size
    ∧ pixelscale ≠ 0
    ∧ ncols = size / pixelscale
    ∧ (pre = [] ∨ pre = [Makedirs (stage_directory "registered"
                                     (img_filename img))])
    ∧ log st'
      = (log st ++ pre
         ++ [ Mkpattern
                (stage_filename "registered" "_pixelgrid.fits"
                   (img_filename img)) ncols ncols;
              Ccsetwcs
                (stage_filename "registered" "_pixelgrid.fits"
                   (img_filename img))
                (ncols / qc 2) (ncols / qc 2) pixelscale pixelscale
                lngref latref;
              Wregister (converted img)
                (stage_filename "registered" "_pixelgrid.fits"
                   (img_filename img))
                (registered img) false ])%list.
Proof.
  intros Hr. unfold register_image in Hr. do 8 bind_ok Hr.
  destruct r0 as [s|pixelscale]; [discriminate E3|]. injection E3 as <-.
  unfold phys_size_num in E2. destruct (phys_size cfg) as [size|] eqn:Hsize;
    [|discriminate E2]. injection E2 as <-.
  unfold py_div in E4. destruct (decide (pixelscale = 0)) as [|Hne];
    [discriminate E4|]. injection E4 as <-.
  destruct (log_ensure_dir (stage_directory "registered" (img_filename img)) st)
    as (pre & Hlog & Hpre).
  exists r, size, pixelscale, (size / pixelscale), pre.
  repeat (split; [first [assumption|reflexivity]|]).
  unfold iraf_mkpattern in E5. destruct (mkpattern _ _); [|discriminate E5].
  injection E5 as <-.
  unfold iraf_ccsetwcs in E6.
  destruct (fs _ !! _) as [[|grid]|]; try discriminate E6.
  destruct (ccsetwcs _ _ _ _ _ _ _); [|discriminate E6]. injection E6 as <-.
  unfold iraf_wregister in Hr.
  destruct (fs _ !! _) as [[|science]|]; try discriminate Hr.
  destruct (fs _ !! _) as [[|grid']|]; try discriminate Hr.
  destruct (wregister _ _ _); [|discriminate Hr]. injection Hr as <-.
  unfold emit, set_fs. cbn [log]. rewrite Hlog, <- !app_assoc. reflexivity.
Qed.

(** X14. A registration that succeeds for an image makes exactly three
    calls, after creating the directory if needed: a grid of
    phys_size / pixelscale columns and as many lines, a WCS tag whose
    reference pixel is half that number on both axes and whose scale is the
    native pixel scale on both axes, and the registration of the converted
    file onto that grid without flux conservation; the pixel scale is not
    0. *)
Theorem register_image_grid (cfg : config) (lngref latref : npfloat)
    (img : image) (st st' : state) :
  register_image cfg lngref latref img st = Ok st' →
  ∃ instrument size pixelscale ncols pre,
    get_instrument (img_header img) = Ok instrument
    ∧ get_native_pixelscale (img_header img) instrument = Ok (VNum pixelscale)
    ∧ phys_size cfg = Some size
    ∧ pixelscale ≠ 0
    ∧ ncols = size / pixelscale
    ∧ (pre = [] ∨ pre = [Makedirs (stage_directory "registered"
                                     (img_filename img))])
    ∧ log st'
      = (log st ++ pre
         ++ [ Mkpattern
                (stage_filename "registered" "_pixelgrid.fits"
                   (img_filename img)) ncols ncols;
              Ccsetwcs
                (stage_filename "registered" "_pixelgrid.fits"
                   (img_filename img))
                (ncols / qc 2) (ncols / qc 2) pixelscale pixelscale
                lngref latref;
              Wregister (converted img)
                (stage_filename "registered" "_pixelgrid.fits"
                   (img_filename img))
                (registered img) false ])%list.
Proof. apply register_image_events. Qed.

Lemma wcs_refs_app (l1 l2 : list io_event) :
  wcs_refs (l1 ++ l2) = (wcs_refs l1 ++ wcs_refs l2)%list.
Proof. apply omap_app. Qed.

Lemma register_loop_refs (cfg : config) (lngref latref : npfloat)
    (images : list image) (st st' : state) :
  register_loop cfg lngref latref images st = Ok st' →
  wcs_refs (log st')
  = (wcs_refs (log st) ++ replicate (length images) (lngref, latref))%list.
Proof.
  revert st. induction images as [|img rest IH]; intros st Hr;
    cbn [register_loop] in Hr.
  - injection Hr as <-. cbn. rewrite app_nil_r. reflexivity.
  - bind_ok Hr. rewrite (IH _ Hr).
    destruct (register_image_events _ _ _ _ _ _ E)
      as (k & size & p & n & pre & _ & _ & _ & _ & _ & Hpre & Hlog).
    rewrite Hlog, !wcs_refs_app. cbn [length replicate].
    destruct Hpre as [-> | ->]; cbn; rewrite <- !app_assoc; reflexivity.
Qed.

(** X15. A registration stage that succeeds tags one grid per image, all
    with the same reference position; a coordinate given on the command
    line is used as it is, and the headers are then not consulted for it. *)
Theorem register_images_common_reference (cfg : config)
    (images : list image) (st st' : state) :
  register_images cfg images st = Ok st' →
  ∃ lngref latref,
    reference_coordinate (ra_input cfg) images "CRVAL1" = Ok lngref
    ∧ reference_coordinate (dec_input cfg) images "CRVAL2" = Ok latref
    ∧ (∀ x, ra_input cfg = Some x → lngref = Finite x)
    ∧ (∀ x, dec_input cfg = Some x → latref = Finite x)
    ∧ wcs_refs (log st')
      = (wcs_refs (log st)
         ++ replicate (length images) (lngref, latref))%list.
Proof.
  intros Hr. unfold register_images in Hr. do 2 bind_ok Hr.
  exists r, r0. split; [reflexivity|]. split; [reflexivity|].
  split; [|split].
  - intros x Hx. rewrite Hx in E. injection E as <-. reflexivity.
  - intros x Hx. rewrite Hx in E0. injection E0 as <-. reflexivity.
  - apply (register_loop_refs _ _ _ _ _ _ Hr).
Qed.

(** X16. An image whose native pixel scale comes out as 0 cannot be
    registered: with BUNIT present and a physical size given, the division
    for the number of columns raises [ZeroDivisionError]. *)
Theorem register_image_zero_pixelscale (cfg : config)
    (lngref latref : npfloat) (img : image) (st : state) (instrument : value)
    (size : Qc) :
  get_instrument (img_header img) = Ok instrument →
  get_native_pixelscale (img_header img) instrument = Ok (VNum 0) →
  is_Some (img_header img !! "BUNIT") →
  phys_size cfg = Some size →
  register_image cfg lngref latref img st = Raise ZeroDivisionError.
Proof.
  intros Hi Hp [[b c] Hb] Hs. unfold register_image, phys_size_num, py_div.
  rewrite Hi. cbn [mbind result_bind]. rewrite Hp. cbn [mbind result_bind].
  rewrite (getitem_lookup _ _ _ _ Hb), Hs. cbn [mbind result_bind as_num].
  rewrite decide_True by reflexivity. reflexivity.
Qed.

(** *** Resampling *)

(** X17. When the common FWHM is 0 and a physical size is given, the
    resampling stage stops with [ZeroDivisionError] before any call is
    made. *)
Theorem resample_images_zero_fwhm (cfg : config) (images : list image)
    (st : state) (size : Qc) :
  get_fwhm_value images = Ok 0 →
  phys_size cfg = Some size →
  resample_images cfg images st = Raise ZeroDivisionError.
Proof.
  intros Hf Hs. unfold resample_images, phys_size_num, py_div.
  rewrite Hf, Hs. cbn [mbind result_bind].
  rewrite decide_True; [reflexivity|]. unfold Qcdiv. apply Qcmult_0_l.
Qed.

(** *** Files written by the later stages *)

Lemma add_dirs_lookup_fits (prefix rest : path) (f : gmap path node)
    (p : path) (hdulist : list hdu) :
  add_dirs prefix rest f !! p = Some (FitsFile hdulist)
  ↔ f !! p = Some (FitsFile hdulist).
Proof.
  revert prefix f. induction rest as [|d rest IH]; intros prefix f;
    cbn [add_dirs]; [reflexivity|].
  rewrite IH. destruct (f !! (prefix ++ [d])%list) as [n|] eqn:Hn;
    [reflexivity|].
  destruct (decide ((prefix ++ [d])%list = p)) as [<-|Hne].
  - rewrite lookup_insert_eq, Hn. split; discriminate.
  - rewrite lookup_insert_ne by exact Hne. reflexivity.
Qed.

Lemma ensure_dir_lookup_fits (d p : path) (st : state) (hdulist : list hdu) :
  fs (ensure_dir d st) !! p = Some (FitsFile hdulist)
  ↔ fs st !! p = Some (FitsFile hdulist).
Proof.
  unfold ensure_dir. destruct (path_exists st d); [reflexivity|].
  unfold makedirs, emit, set_fs. cbn [fs]. apply add_dirs_lookup_fits.
Qed.

Lemma fits_open_lookup (p : path) (st st' : state) (hdulist : list hdu) :
  fits_open p st = Ok (hdulist, st') →
  fs st !! p = Some (FitsFile hdulist) ∧ fs st' = fs st.
Proof.
  unfold fits_open. intros Ho.
  destruct (fs st !! p) as [[|h]|]; try discriminate Ho.
  injection Ho as <- <-. split; reflexivity.
Qed.

(** X18. A convolution that succeeds for an image reads the registered
    file, convolves the data of its first unit with the kernel of width
    fwhm / (fwhm_to_sigma * pixelscale), and writes the result to the
    convolved file under the header of the registered file with only the
    FWHM card added; the header held in memory is not written. *)
Theorem convolve_image_output (fwhm_input : Qc) (img : image)
    (st st' : state) :
  convolve_image fwhm_input img st = Ok st' →
  ∃ instrument pixelscale primary extensions,
    get_instrument (img_header img) = Ok instrument
    ∧ get_native_pixelscale (img_header img) instrument = Ok (VNum pixelscale)
    ∧ fwhm_to_sigma * pixelscale ≠ 0
    ∧ fs st !! registered img = Some (FitsFile (primary :: extensions))
    ∧ fs st' !! convolved img
      = Some (FitsFile
                [Hdu (convolve (hdu_data primary)
                        (make_kernel
                           (fwhm_input / (fwhm_to_sigma * pixelscale))))
                   (setcard (hdu_header primary) "FWHM" (VNum fwhm_input)
                      "The FWHM value used in the convolution step.")]).
Proof.
  intros Hc. unfold convolve_image in Hc. do 5 bind_ok Hc.
  destruct r3 as [hdulist st1]. bind_ok Hc. injection Hc as <-.
  destruct r0 as [s|pixelscale]; [discriminate E1|]. injection E1 as <-.
  unfold py_div in E2. destruct (decide _) as [|Hne]; [discriminate E2|].
  injection E2 as <-.
  apply fits_open_lookup in E3 as [Hl Hfs].
  apply ensure_dir_lookup_fits in Hl.
  destruct hdulist as [|primary extensions]; [discriminate E4|].
  injection E4 as <-.
  exists r, pixelscale, primary, extensions.
  repeat (split; [first [reflexivity|assumption]|]).
  unfold fits_writeto, emit, set_fs. cbn [fs]. apply lookup_insert_eq.
Qed.

Lemma read_resampled_spec (images : list image) (st st' : state)
    (hdus : list hdu) :
  read_resampled images st = Ok (hdus, st') →
  fs st' = fs st
  ∧ Forall2 (λ img h, ∃ extensions,
               fs st !! resampled img = Some (FitsFile (h :: extensions)))
      images hdus.
Proof.
  revert st hdus. induction images as [|img rest IH]; intros st hdus Hr;
    cbn [read_resampled] in Hr.
  - injection Hr as <- <-. split; [reflexivity|constructor].
  - bind_ok Hr. destruct r as [hdulist st1]. bind_ok Hr. bind_ok Hr.
    destruct r0 as [others st2]. injection Hr as <- <-.
    apply fits_open_lookup in E as [Hl Hfs].
    destruct (IH _ _ E1) as [Hfs' Hall]. split; [congruence|].
    destruct hdulist as [|primary extensions]; [discriminate E0|].
    injection E0 as <-. constructor; [eauto|].
    rewrite Hfs in Hall. exact Hall.
Qed.

(** X19. A data cube is only written for a collection that is not empty:
    it then holds, in the order of the collection, the data of the first
    unit of every resampled file, under the header of the first of them, in
    datacube/datacube.fits of the input directory; for an empty collection
    the stage raises [IndexError]. *)
Theorem create_data_cube_output (cfg : config) (images : list image)
    (st : state) :
  (images = [] → create_data_cube cfg images st = Raise IndexError)
  ∧ ∀ st', create_data_cube cfg images st = Ok st' →
      ∃ first others,
        Forall2 (λ img h, ∃ extensions,
                   fs st !! resampled img = Some (FitsFile (h :: extensions)))
          images (first :: others)
        ∧ fs st' !! (directory cfg ++ ["datacube"; "datacube.fits"])%list
          = Some (FitsFile
                    [Hdu (Array (hdu_data <$> first :: others))
                       (hdu_header first)]).
Proof.
  split; [intros ->; reflexivity|].
  intros st' Hc. unfold create_data_cube in Hc. bind_ok Hc.
  destruct r as [hdus st1]. bind_ok Hc. injection Hc as <-.
  destruct (read_resampled_spec _ _ _ _ E) as [Hfs Hall].
  destruct hdus as [|first others]; [discriminate E0|]. injection E0 as <-.
  exists first, others. split.
  - eapply Forall2_impl; [exact Hall|].
    intros img h [extensions Hl]. exists extensions.
    apply ensure_dir_lookup_fits in Hl. exact Hl.
  - unfold fits_writeto, emit, set_fs. cbn [fs].
    rewrite <- app_assoc. apply lookup_insert_eq.
Qed.

(** *** The SED table *)

Lemma row_le_total (a b : sed_row) : row_le a b = true ∨ row_le b a = true.
Proof.
  destruct a as [[[x1 y1] w1] f1], b as [[[x2 y2] w2] f2]. unfold row_le.
  destruct (decide (x1 = x2)) as [->|Hx].
  - rewrite !bool_decide_eq_true_2 by reflexivity.
    destruct (decide (y1 = y2)) as [->|Hy].
    + rewrite !bool_decide_eq_true_2 by reflexivity.
      destruct (decide (w1 = w2)) as [->|Hw].
      * rewrite !bool_decide_eq_true_2 by reflexivity.
        rewrite !bool_decide_eq_true.
        destruct (Qclt_le_dec f1 f2) as [Hlt|Hle]; [left|right];
          [apply Qclt_le_weak|]; assumption.
      * rewrite !bool_decide_eq_false_2 by congruence. apply value_le_total.
    + rewrite !(bool_decide_eq_false_2 (_ = _)) by congruence.
      rewrite !bool_decide_eq_true. lia.
  - rewrite !(bool_decide_eq_false_2 (_ = _)) by congruence.
    rewrite !bool_decide_eq_true. lia.
Qed.

(** X20. The table that [output_seds] saves is a rearrangement of the rows
    (line, column, wavelength, flux) collected image by image from the
    resampled files, and it is ordered: each row is at most the next in the
    order by line, then column, then wavelength, then flux. *)
Theorem output_seds_table_sorted (images : list image) (st st' : state)
    (rows : list sed_row) :
  output_seds images st = Ok (rows, st') →
  ∃ wavelengths all_image_data st1 sed_data,
    seds_read images st = Ok (wavelengths, all_image_data, st1)
    ∧ sed_rows wavelengths all_image_data = Ok sed_data
    ∧ rows ≡ₚ sed_data
    ∧ Sorted (λ a b, row_le a b = true) rows.
Proof.
  intros Ho. unfold output_seds in Ho. bind_ok Ho.
  destruct r as [[ws data] st1]. bind_ok Ho. injection Ho as <- _.
  exists ws, data, st1, r. split; [reflexivity|]. split; [assumption|].
  split; [apply py_sorted_perm|].
  apply py_sorted_sorted, row_le_total.
Qed.

(** *** Cleanup *)

(** X21. After cleanup none of converted, registered, convolved, resampled
    and seds is a directory of the input directory, whatever the file
    system held before. *)
Theorem cleanup_removes_directories (cfg : config) (st : state) (d : string) :
  d ∈ cleaned_dirs →
  isdir (cleanup_output_files cfg st) (directory cfg ++ [d])%list = false.
Proof. apply cleanup_removes_stage_dirs. Qed.

Lemma cleanup_dir_frame (cfg : config) (st : state) (d : string) (p : path) :
  ¬ (directory cfg ++ [d])%list `prefix_of` p →
  fs (cleanup_dir cfg st d) !! p = fs st !! p.
Proof.
  intros Hp. unfold cleanup_dir.
  destruct (isdir st (directory cfg ++ [d])%list); [|reflexivity].
  unfold rmtree, emit, set_fs. cbn [fs].
  destruct (fs st !! p) as [n|] eqn:Hl.
  - apply map_lookup_filter_Some. split; [assumption|exact Hp].
  - apply map_lookup_filter_None. left. assumption.
Qed.

(** X22. Cleanup leaves every path alone that is not one of the five
    stage directories or below one: input images, the data cube and
    anything else in the input directory keep their contents. *)
Theorem cleanup_frame (cfg : config) (st : state) (p : path) :
  (∀ d, d ∈ cleaned_dirs → ¬ (directory cfg ++ [d])%list `prefix_of` p) →
  fs (cleanup_output_files cfg st) !! p = fs st !! p.
Proof.
  unfold cleanup_output_files. fold cleaned_dirs.
  generalize cleaned_dirs. intros dirs. revert st.
  induction dirs as [|d dirs IH]; intros st Hp; [reflexivity|].
  cbn [foldl]. rewrite IH.
  - apply cleanup_dir_frame, Hp, list_elem_of_here.
  - intros d' Hin. apply Hp, list_elem_of_further, Hin.
Qed.

Lemma cleanup_fold_nothing (cfg : config) (dirs : list string) (st : state) :
  (∀ d, d ∈ dirs → isdir st (directory cfg ++ [d])%list = false) →
  foldl (cleanup_dir cfg) st dirs = st.
Proof.
  induction dirs as [|d dirs IH]; intros Hd; [reflexivity|].
  cbn [foldl]. unfold cleanup_dir at 2.
  rewrite (Hd d) by apply list_elem_of_here.
  apply IH. intros d' Hin. apply Hd, list_elem_of_further, Hin.
Qed.

(** X23. Cleanup is idempotent: a second cleanup right after the first
    removes nothing and leaves files, log and converted data exactly as the
    first left them; on a directory without stage directories cleanup does
    nothing at all. *)
Theorem cleanup_idempotent (cfg : config) (st : state) :
  cleanup_output_files cfg (cleanup_output_files cfg st)
  = cleanup_output_files cfg st
  ∧ ((∀ d, d ∈ cleaned_dirs → isdir st (directory cfg ++ [d])%list = false)
     → cleanup_output_files cfg st = st).
Proof.
  split.
  - unfold cleanup_output_files at 1. apply cleanup_fold_nothing.
    intros d Hd. apply cleanup_removes_stage_dirs. exact Hd.
  - apply cleanup_fold_nothing.
Qed.

(** *** Ingestion and sorting *)

Section stability.
Context {A : Type} (le : value * A → value * A → bool).
Hypothesis le_key : ∀ a b, le a b = value_le a.1 b.1.

Lemma value_le_refl (v : value) : value_le v v = true.
Proof.
  destruct v as [s|q]; cbn.
  - destruct (String.leb_total s s); assumption.
  - apply bool_decide_eq_true, Qcle_refl.
Qed.

Lemma insert_sorted_filter (k : value) (x : value * A) (l : list (value * A)) :
  filter (λ kx, kx.1 = k) (insert_sorted le x l)
  = filter (λ kx, kx.1 = k) (x :: l).
Proof.
  induction l as [|y l IH]; [reflexivity|]. cbn [insert_sorted].
  destruct (le x y) eqn:Hxy; [reflexivity|].
  rewrite filter_cons, IH, !filter_cons.
  destruct (decide (y.1 = k)) as [Hy|Hy];
    destruct (decide (x.1 = k)) as [Hx|Hx]; try reflexivity.
  exfalso. rewrite le_key, Hx, Hy, value_le_refl in Hxy. discriminate Hxy.
Qed.

Lemma py_sorted_filter (k : value) (l : list (value * A)) :
  filter (λ kx, kx.1 = k) (py_sorted le l) = filter (λ kx, kx.1 = k) l.
Proof.
  induction l as [|x l IH]; [reflexivity|].
  cbn [py_sorted foldr]. rewrite insert_sorted_filter.
  fold (py_sorted le l). rewrite !filter_cons, IH. reflexivity.
Qed.

End stability.

Lemma filter_keyed_images (keyed : list (value * image)) (w : Qc) :
  Forall (λ kx, waveleng kx.2 = Ok kx.1) keyed →
  filter (λ img, waveleng img = Ok (VNum w)) (snd <$> keyed)
  = snd <$> filter (λ kx, kx.1 = VNum w) keyed.
Proof.
  induction 1 as [|[k x] keyed Hk _ IH]; [reflexivity|].
  cbn [fmap list_fmap snd]. rewrite !filter_cons, IH. cbn [fst snd] in *.
  destruct (decide (waveleng x = Ok (VNum w))) as [Hx|Hx];
    destruct (decide (k = VNum w)) as [Hy|Hy]; try reflexivity; exfalso.
  - rewrite Hk in Hx. injection Hx as Hx. contradiction.
  - rewrite Hk, Hy in Hx. contradiction.
Qed.

(** X24. The sort of the collection is stable: the images that share a
    WAVELENG value appear in the sorted collection in the order in which
    they were ingested. *)
Theorem sort_by_key_stable (unsorted images : list image) (w : Qc) :
  py_sorted_by_key waveleng unsorted = Ok images →
  filter (λ img, waveleng img = Ok (VNum w)) images
  = filter (λ img, waveleng img = Ok (VNum w)) unsorted.
Proof.
  intros Hs. unfold py_sorted_by_key in Hs. bind_ok Hs. injection Hs as <-.
  destruct (with_keys_spec _ _ _ E) as [Hsnd Hkeys].
  rewrite <- Hsnd. rewrite !filter_keyed_images.
  - rewrite py_sorted_filter; [reflexivity|]. intros a b. reflexivity.
  - exact Hkeys.
  - rewrite py_sorted_perm. exact Hkeys.
Qed.

Lemma ingest_keeps_files (all_files : list path) (st st' : state)
    (images : list image) :
  ingest all_files st = Ok (images, st') →
  fs st' = fs st ∧ converted_data st' = converted_data st
  ∧ length images = length all_files.
Proof.
  revert st images. induction all_files as [|i rest IH]; intros st images Hi;
    cbn [ingest] in Hi.
  - injection Hi as <- <-. auto.
  - bind_ok Hi. destruct r as [img st1]. bind_ok Hi.
    destruct r as [others st2]. injection Hi as <- <-.
    destruct (ingest_file_spec _ _ _ _ E) as [-> _].
    destruct (IH _ _ E0) as (Hf & Hc & Hl). cbn [length].
    rewrite Hf, Hc, Hl. auto.
Qed.

(** X25. Loading the collection only reads: the file system and the
    converted data are as before, the log gains one read per input file in
    the order given, and the collection has one image per input file. *)
Theorem load_images_read_only (all_files : list path) (st st' : state)
    (images : list image) :
  load_images all_files st = Ok (images, st') →
  fs st' = fs st
  ∧ converted_data st' = converted_data st
  ∧ log st' = (log st ++ (ReadFits <$> all_files))%list
  ∧ length images = length all_files.
Proof.
  intros Hl. unfold load_images in Hl. bind_ok Hl.
  destruct r as [unsorted st1]. bind_ok Hl. injection Hl as <- <-.
  destruct (ingest_keeps_files _ _ _ _ E) as (Hf & Hc & Hlen).
  destruct (ingest_spec _ _ _ _ E) as [_ Hlog].
  repeat (split; [assumption|]).
  unfold py_sorted_by_key in E0. bind_ok E0. injection E0 as <-.
  destruct (with_keys_spec _ _ _ E1) as [Hsnd _].
  rewrite length_fmap, (Permutation_length (py_sorted_perm _ _)).
  rewrite <- Hlen, <- Hsnd, length_fmap. reflexivity.
Qed.

(** *** Running the conversion stage again *)

Lemma contains_same (h h' : fits_header) (key : string) :
  h' !! key = h !! key → contains key h' = contains key h.
Proof. intros Hk. unfold contains. rewrite Hk. reflexivity. Qed.

Lemma getitem_same (h h' : fits_header) (key : string) :
  h' !! key = h !! key → getitem h' key = getitem h key.
Proof. intros Hk. unfold getitem. unfold card in *. rewrite Hk. reflexivity. Qed.

(** Two headers that differ at most in BUNIT and JYPXFACT. *)
Lemma get_instrument_provenance (h h' : fits_header) :
  (∀ key, key ≠ "BUNIT" → key ≠ "JYPXFACT" → h' !! key = h !! key) →
  get_instrument h' = get_instrument h.
Proof.
  intros Hk. unfold get_instrument.
  rewrite !(contains_same h h'), !(getitem_same h h')
    by (apply Hk; discriminate).
  reflexivity.
Qed.

Lemma get_native_pixelscale_provenance (h h' : fits_header) (k : value) :
  (∀ key, key ≠ "BUNIT" → key ≠ "JYPXFACT" → h' !! key = h !! key) →
  get_native_pixelscale h' k = get_native_pixelscale h k.
Proof.
  intros Hk. unfold get_native_pixelscale.
  rewrite !(contains_same h h'), !(getitem_same h h')
    by (apply Hk; discriminate).
  reflexivity.
Qed.

Lemma get_conversion_factor_provenance (h h' : fits_header) (k : value)
    (factor : Qc) (s c : string) :
  (∀ key, key ≠ "BUNIT" → key ≠ "JYPXFACT" → h' !! key = h !! key) →
  h' !! "BUNIT" = Some (VStr s, c) →
  get_conversion_factor h k = Ok factor →
  get_conversion_factor h' k = Ok factor.
Proof.
  intros Hk Hb Hf. unfold get_conversion_factor in *.
  rewrite !(get_native_pixelscale_provenance h h') by exact Hk.
  rewrite (getitem_same h h' "WAVELENG"), (getitem_same h h' "FILTER"),
    (getitem_same h h' "MAGZP") by (apply Hk; discriminate).
  repeat (case_bool_decide; [exact Hf|]).
  case_bool_decide; [|exact Hf].
  bind_ok Hf. injection Hf as <-.
  rewrite (contains_lookup _ _ _ Hb), (getitem_lookup _ _ _ _ Hb).
  reflexivity.
Qed.

Lemma add_dirs_self (prefix rest : path) (f : gmap path node) :
  rest ≠ [] → is_Some (add_dirs prefix rest f !! (prefix ++ rest)%list).
Proof.
  revert prefix f. induction rest as [|d rest IH]; intros prefix f Hne;
    [contradiction|].
  cbn [add_dirs]. destruct rest as [|d' rest].
  - cbn [add_dirs]. destruct (f !! (prefix ++ [d])%list) as [n|] eqn:Hn.
    + rewrite Hn. eauto.
    + rewrite lookup_insert_eq. eauto.
  - rewrite (cons_middle d prefix (d' :: rest)), app_assoc.
    apply IH. discriminate.
Qed.

Lemma ensure_dir_exists (d : path) (st : state) :
  d ≠ [] → path_exists (ensure_dir d st) d = true.
Proof.
  intros Hne. unfold ensure_dir.
  destruct (path_exists st d) eqn:He; [exact He|].
  unfold path_exists, makedirs, emit, set_fs. cbn [fs].
  apply bool_decide_eq_true. apply (add_dirs_self [] d), Hne.
Qed.

(** X26. Converting a record that has just been converted repeats the
    same work: the same factor is found, the record and the file system do
    not change, the converted file is written once more with the same
    contents, and only [converted_data] grows, by the same array again. *)
Theorem convert_image_again (img img1 : image) (st st1 : state) :
  convert_image img st = Ok (img1, st1) →
  ∃ st2 array,
    convert_image img1 st1 = Ok (img1, st2)
    ∧ fs st2 = fs st1
    ∧ log st2 = (log st1 ++ [WriteFits (converted img)])%list
    ∧ converted_data st1 = (converted_data st ++ [array])%list
    ∧ converted_data st2 = (converted_data st1 ++ [array])%list.
Proof.
  intros Hc. unfold convert_image in Hc. do 2 bind_ok Hc.
  rename r into instrument, r0 into factor.
  set (dir := stage_directory "converted" (img_filename img)) in *.
  set (file := stage_filename "converted" "_converted.fits"
                 (img_filename img)) in *.
  set (comment := "Factor to convert original BUNIT into Jy/pixel.") in *.
  set (header1 := setcard (setitem (img_header img) "BUNIT" (VStr "Jy/pixel"))
                    "JYPXFACT" (VNum factor) comment) in *.
  set (array := scale factor (img_data img)) in *.
  injection Hc as <- <-.
  assert (Hkeys : ∀ key, key ≠ "BUNIT" → key ≠ "JYPXFACT" →
                         header1 !! key = img_header img !! key).
  { intros key Hb Hj. unfold header1, setcard, setitem.
    rewrite !lookup_insert_ne by congruence. reflexivity. }
  assert (Hbunit : header1 !! "BUNIT"
                   = Some (VStr "Jy/pixel",
                           default "" (snd <$> img_header img !! "BUNIT"))).
  { unfold header1, setcard, setitem.
    rewrite lookup_insert_ne by discriminate. apply lookup_insert_eq. }
  assert (Hsame : setcard (setitem header1 "BUNIT" (VStr "Jy/pixel"))
                    "JYPXFACT" (VNum factor) comment = header1).
  { assert (Hs : setitem header1 "BUNIT" (VStr "Jy/pixel") = header1).
    { unfold setitem. apply insert_id. etrans; [exact Hbunit|].
      rewrite Hbunit. reflexivity. }
    rewrite Hs. unfold setcard. apply insert_id.
    unfold header1, setcard. apply lookup_insert_eq. }
  assert (Hdir : dir ≠ file).
  { unfold dir, file, stage_directory, stage_filename. intros Heq.
    apply app_inv_head in Heq. discriminate Heq. }
  exists (fits_writeto file [Hdu array header1]
            (State (fs (fits_writeto file [Hdu array header1]
                          (State (fs (ensure_dir dir st))
                             (converted_data (ensure_dir dir st) ++ [array])
                             (log (ensure_dir dir st)))))
               ((converted_data (ensure_dir dir st) ++ [array]) ++ [array])
               (log (fits_writeto file [Hdu array header1]
                       (State (fs (ensure_dir dir st))
                          (converted_data (ensure_dir dir st) ++ [array])
                          (log (ensure_dir dir st))))))), array.
  split; [|split; [|split; [|split]]].
  - unfold convert_image. cbn [img_header img_data img_filename].
    rewrite (get_instrument_provenance _ _ Hkeys), E.
    cbn [mbind result_bind].
    rewrite (get_conversion_factor_provenance _ _ _ _ _ _ Hkeys Hbunit E0).
    cbn [mbind result_bind]. fold dir file comment array. rewrite Hsame.
    assert (Hex : ensure_dir dir
                    (fits_writeto file [Hdu array header1]
                       (State (fs (ensure_dir dir st))
                          (converted_data (ensure_dir dir st) ++ [array])
                          (log (ensure_dir dir st))))
                  = fits_writeto file [Hdu array header1]
                      (State (fs (ensure_dir dir st))
                         (converted_data (ensure_dir dir st) ++ [array])
                         (log (ensure_dir dir st)))).
    { unfold ensure_dir at 1.
      assert (Hp : path_exists (ensure_dir dir st) dir = true).
      { apply ensure_dir_exists. unfold dir, stage_directory.
        intros Heq. apply app_eq_nil in Heq as [_ Heq]. discriminate Heq. }
      unfold path_exists, fits_writeto, emit, set_fs in *. cbn [fs] in *.
      apply bool_decide_eq_true in Hp.
      rewrite bool_decide_eq_true_2; [reflexivity|].
      rewrite lookup_insert_ne by (intros Heq; apply Hdir; symmetry; exact Heq).
      exact Hp. }
    rewrite Hex. reflexivity.
  - unfold fits_writeto, emit, set_fs. cbn [fs]. apply insert_insert_eq.
  - reflexivity.
  - unfold fits_writeto, emit, set_fs. cbn [converted_data].
    rewrite ensure_dir_converted_data. reflexivity.
  - reflexivity.
Qed.

(** *** Command line *)

Lemma when_opt_preserves (P : globals → Prop) (opt name : string)
    (update : globals → result globals) (g g' : globals) :
  (∀ g1 g2, update g1 = Ok g2 → P g1 → P g2) →
  when_opt opt name update g = Ok g' → P g → P g'.
Proof.
  intros Hu Hw HP. unfold when_opt in Hw.
  destruct (substring_of opt name); [eauto|].
  injection Hw as <-. exact HP.
Qed.

Lemma parse_options_app (isdir : string → bool) (g : globals)
    (l1 l2 : list (string * string)) :
  parse_options isdir g (l1 ++ l2)
  = parse_options isdir g l1 ≫= λ g1, parse_options isdir g1 l2.
Proof.
  revert g. induction l1 as [|oa l1 IH]; intros g; [reflexivity|].
  cbn [app parse_options].
  destruct (parse_option isdir g oa) as [g1|e]; [|reflexivity].
  cbn [mbind result_bind]. apply IH.
Qed.

(** An update of the globals that is known to have gone through. *)
Ltac update_ok Hu :=
  try match type of Hu with
      | context [float_arg ?a] => destruct (float_arg a)
      end;
  try match type of Hu with
      | context [if ?b then _ else _] => destruct b eqn:?
      end;
  cbn [mbind result_bind] in Hu; try discriminate Hu; injection Hu as <-.

Lemma parse_option_directory (isdir : string → bool) (g g' : globals)
    (oa : string * string) :
  parse_option isdir g oa = Ok g' →
  (g_directory g = "" ∨ isdir (g_directory g) = true) →
  g_directory g' = "" ∨ isdir (g_directory g') = true.
Proof.
  destruct oa as [opt arg]. unfold parse_option. cbv beta iota.
  intros Hp HP.
  do 13
    (bind_ok Hp;
     match goal with
     | E : when_opt _ _ _ _ = Ok ?r |- _ =>
         assert (g_directory r = "" ∨ isdir (g_directory r) = true)
           by (eapply (when_opt_preserves
                         (λ g, g_directory g = "" ∨ isdir (g_directory g) = true));
               [|exact E|assumption];
               intros ? ? Hu ?; update_ok Hu; cbn; auto);
         clear E
     end).
  eapply (when_opt_preserves
            (λ g, g_directory g = "" ∨ isdir (g_directory g) = true));
    [|exact Hp|assumption].
  intros ? ? Hu Hd. update_ok Hu. exact Hd.
Qed.

Lemma parse_options_directory (isdir : string → bool) (g g' : globals)
    (opts : list (string * string)) :
  parse_options isdir g opts = Ok g' →
  (g_directory g = "" ∨ isdir (g_directory g) = true) →
  g_directory g' = "" ∨ isdir (g_directory g') = true.
Proof.
  revert g. induction opts as [|oa opts IH]; intros g Hp HP;
    cbn [parse_options] in Hp.
  - injection Hp as <-. exact HP.
  - bind_ok Hp. apply (IH _ Hp). apply (parse_option_directory _ _ _ _ E HP).
Qed.

(** X27. A command line that is parsed without exiting leaves a directory
    that is either still unset or one that exists, and every reference image
    it leaves set is a file that could be opened under that directory. *)
Theorem parse_command_line_checked (isdir readable : string → bool)
    (opts : list (string * string)) (g : globals) :
  parse_command_line isdir readable opts = Ok g →
  (g_directory g = "" ∨ isdir (g_directory g) = true)
  ∧ (g_main_reference_image g ≠ "" →
     readable (g_directory g +:+ "/" +:+ g_main_reference_image g) = true)
  ∧ (g_convolution_reference_image g ≠ "" →
     readable (g_directory g +:+ "/" +:+ g_convolution_reference_image g)
     = true).
Proof.
  intros Hp. unfold parse_command_line in Hp. do 3 bind_ok Hp.
  injection Hp as <-. split; [|split].
  - apply (parse_options_directory _ _ _ _ E). left. reflexivity.
  - intros Hne. unfold check_reference in E0.
    rewrite bool_decide_eq_true_2 in E0 by exact Hne.
    destruct (readable _); [reflexivity|discriminate E0].
  - intros Hne. unfold check_reference in E1.
    rewrite bool_decide_eq_true_2 in E1 by exact Hne.
    destruct (readable _); [reflexivity|discriminate E1].
Qed.

(** The tests of one recognised option, evaluated. *)
Ltac eval_option_tests :=
  unfold parse_option, when_opt;
  repeat match goal with
         | |- context [substring_of ?a ?b] =>
             let v := eval vm_compute in (substring_of a b) in
             change (substring_of a b) with v
         | Hp : context [substring_of ?a ?b] |- _ =>
             let v := eval vm_compute in (substring_of a b) in
             change (substring_of a b) with v in Hp
         end;
  cbn [mbind result_bind].

Lemma parse_option_recognised (isdir : string → bool) (g g' : globals)
    (opt arg : string) :
  opt ∈ recognised_options →
  parse_option isdir g (opt, arg) = Ok g' →
  g_do_conversion g'
  = g_do_conversion g || bool_decide (opt = "--conversion")
  ∧ g_conversion_factors g'
    = g_conversion_factors g || bool_decide (opt = "--conversion")
      || bool_decide (opt = "--conversion_factors")
  ∧ g_do_convolution g'
    = g_do_convolution g || bool_decide (opt = "--convolution")
  ∧ g_convolution_reference_image g'
    = if bool_decide (opt = "--convolution")
         || bool_decide (opt = "--convolution_reference_image")
      then arg else g_convolution_reference_image g.
Proof.
  unfold recognised_options. rewrite !elem_of_cons, elem_of_nil.
  intros Hin Hp.
  repeat (destruct Hin as [->|Hin]); [..|contradiction];
    revert Hp; eval_option_tests; intros Hp; update_ok Hp;
    cbn [g_do_conversion g_conversion_factors g_do_convolution
         g_convolution_reference_image];
    repeat match goal with
           | |- context [bool_decide (?a = ?b)] =>
               let v := eval vm_compute in (bool_decide (a = b)) in
               change (bool_decide (a = b)) with v
           end;
    rewrite ?orb_false_r, ?orb_true_r; auto.
Qed.

Lemma parse_options_conversion (isdir : string → bool)
    (opts : list (string * string)) (g0 g : globals) :
  Forall (λ oa, oa.1 ∈ recognised_options) opts →
  parse_options isdir g0 opts = Ok g →
  (g_do_conversion g = true →
   g_do_conversion g0 = true ∨ ∃ arg, ("--conversion", arg) ∈ opts)
  ∧ (g_do_conversion g0 = true ∨ (∃ arg, ("--conversion", arg) ∈ opts) →
     g_do_conversion g = true)
  ∧ (g_conversion_factors g0 = true
     ∨ (∃ arg, ("--conversion", arg) ∈ opts) →
     g_conversion_factors g = true).
Proof.
  intros Hrec. revert g0.
  induction Hrec as [|[opt arg] opts Hopt _ IH]; intros g0 E;
    cbn [parse_options] in E.
  - injection E as <-. repeat split.
    + auto.
    + intros [Hg|[arg Hin]]; [exact Hg|].
      apply elem_of_nil in Hin. contradiction.
    + intros [Hg|[arg Hin]]; [exact Hg|].
      apply elem_of_nil in Hin. contradiction.
  - bind_ok E. rename r into g1.
    destruct (parse_option_recognised _ _ _ _ _ Hopt E0)
      as (Hdo & Hcf & _ & _).
    destruct (IH _ E) as (H1 & H2 & H3). repeat split.
    + intros Hr. destruct (H1 Hr) as [Hg1|[a Hin]].
      * rewrite Hdo in Hg1. apply orb_true_iff in Hg1 as [Hg|Hb]; [auto|].
        apply bool_decide_eq_true in Hb. cbn in Hb. subst opt.
        right. exists arg. apply list_elem_of_here.
      * right. exists a. apply list_elem_of_further, Hin.
    + intros [Hg|[a Hin]]; apply H2.
      * left. rewrite Hdo, Hg. reflexivity.
      * apply elem_of_cons in Hin as [Heq|Hin]; [|eauto].
        injection Heq as <- <-. left. rewrite Hdo. apply orb_true_r.
    + intros [Hg|[a Hin]]; apply H3.
      * left. rewrite Hcf, Hg. reflexivity.
      * apply elem_of_cons in Hin as [Heq|Hin]; [|eauto].
        injection Heq as <- <-. left. rewrite Hcf.
        rewrite (bool_decide_eq_true_2 ("--conversion" = "--conversion"))
          by reflexivity.
        rewrite orb_true_r. reflexivity.
Qed.

(** X28. With the options [getopt] recognises, asking for the conversion
    stage also switches the table of conversion factors on: after a parse
    that does not exit, do_conversion is set exactly when --conversion was
    given, and conversion_factors is then set as well. *)
Theorem conversion_implies_conversion_factors (isdir readable : string → bool)
    (opts : list (string * string)) (g : globals) :
  Forall (λ oa, oa.1 ∈ recognised_options) opts →
  parse_command_line isdir readable opts = Ok g →
  (g_do_conversion g = true ↔ ∃ arg, ("--conversion", arg) ∈ opts)
  ∧ (g_do_conversion g = true → g_conversion_factors g = true).
Proof.
  intros Hrec Hp. unfold parse_command_line in Hp. do 3 bind_ok Hp.
  injection Hp as <-.
  destruct (parse_options_conversion _ _ _ _ Hrec E) as (H1 & H2 & H3).
  assert (Hiff : g_do_conversion r = true ↔ ∃ arg, ("--conversion", arg) ∈ opts).
  { split.
    - intros Hr. destruct (H1 Hr) as [Hg|Hex]; [discriminate Hg|exact Hex].
    - intros Hex. apply H2. right. exact Hex. }
  split; [exact Hiff|]. intros Hr. apply H3. right. apply Hiff, Hr.
Qed.

(** X29. When --convolution is the last option, the parse leaves
    convolution_reference_image as the argument of that option, the empty
    string for a flag: a reference image named by an earlier
    --convolution_reference_image is forgotten and is not checked. *)
Theorem convolution_resets_reference (isdir readable : string → bool)
    (opts : list (string * string)) (arg : string) (g : globals) :
  parse_command_line isdir readable (opts ++ [("--convolution", arg)]) = Ok g →
  g_convolution_reference_image g = arg ∧ g_do_convolution g = true.
Proof.
  intros Hp. unfold parse_command_line in Hp. do 3 bind_ok Hp.
  injection Hp as <-. rewrite parse_options_app in E. bind_ok E.
  cbn [parse_options] in E. bind_ok E. injection E as <-.
  assert (Hin : "--convolution" ∈ recognised_options).
  { unfold recognised_options. rewrite !elem_of_cons. auto 10. }
  destruct (parse_option_recognised _ _ _ _ _ Hin E3) as (_ & _ & Hc & Hr).
  split.
  - rewrite Hr. reflexivity.
  - rewrite Hc. apply orb_true_r.
Qed.

(** *** The earlier script *)

Lemma Qcabs_square (p : Qc) : Qcabs p ^ 2 = p ^ 2.
Proof.
  unfold Qcabs. destruct (decide (p < 0)); [|reflexivity].
  cbn [Qcpower]. ring.
Qed.

Lemma deg_to_arcsec_abs_square (d : Qc) :
  deg_to_arcsec (Qcabs d) ^ 2 = deg_to_arcsec d ^ 2.
Proof.
  unfold deg_to_arcsec, Qcabs. destruct (decide (d < 0)); [|reflexivity].
  cbn [Qcpower]. ring.
Qed.

(** X30. For every instrument tag other than GALEX the conversion factor
    of imagecube.py agrees with the one of the earlier script
    PyRegistration.py, in the value and in the exception, with one
    exception: for SPIRE with a CDELT2 that is a string the earlier script
    raises [ValueError], from the unit conversion, and imagecube.py raises
    [TypeError], from [abs].  Taking the absolute value of the pixel scale
    and naming the constants changed no value.  GALEX is left out: the
    literal 10**23 of the earlier script became a constant that is
    computed. *)
Theorem conversion_factor_same_outside_galex (header : fits_header)
    (instrument : value) :
  (instrument ≠ VStr "GALEX" →
   (instrument = VStr "SPIRE" →
    ∀ s c, header !! "CDELT2" ≠ Some (VStr s, c)) →
   get_conversion_factor header instrument
   = PyRegistration.get_conversion_factor header instrument)
  ∧ (∀ s c, header !! "CDELT2" = Some (VStr s, c) →
     get_conversion_factor header (VStr "SPIRE") = Raise TypeError
     ∧ PyRegistration.get_conversion_factor header (VStr "SPIRE")
       = Raise ValueError).
Proof.
  split.
  - intros Hgalex Hspire_num.
    unfold get_conversion_factor, PyRegistration.get_conversion_factor.
    assert (Hk : MJY_PER_SR_TO_JY_PER_PIXEL
                 = qc 2.3504 * Qc_zpow (qc 10) (-5)) by qc_closed.
    assert (Hirac : get_native_pixelscale header (VStr "IRAC")
                    = getitem header "PXSCAL1" ≫= λ p, VNum <$> py_abs p)
      by reflexivity.
    assert (Hmips : get_native_pixelscale header (VStr "MIPS")
                    = getitem header "PLTSCALE") by reflexivity.
    assert (Hspire : get_native_pixelscale header (VStr "SPIRE")
                     = getitem header "CDELT2" ≫= λ d,
                         py_abs d ≫= λ a, Ok (VNum (deg_to_arcsec a)))
      by reflexivity.
    rewrite Hirac, Hmips, Hspire. clear Hirac Hmips Hspire.
    case_bool_decide.
    { destruct (getitem header "PXSCAL1") as [[s|p]|e]; try reflexivity.
      cbn [mbind result_bind py_abs as_num fmap result_fmap].
      rewrite Qcabs_square, Hk. reflexivity. }
    case_bool_decide.
    { rewrite Hk. reflexivity. }
    case_bool_decide; [contradiction|].
    case_bool_decide; [reflexivity|].
    case_bool_decide; [reflexivity|].
    case_bool_decide as Hs; [|reflexivity].
    specialize (Hspire_num Hs).
    destruct (header !! "CDELT2") as [[[s|d] c]|] eqn:Hd.
    { exfalso. exact (Hspire_num s c eq_refl). }
    2: { rewrite (getitem_none _ _ Hd). reflexivity. }
    rewrite (getitem_lookup _ _ _ _ Hd).
    cbn [mbind result_bind py_abs as_num fmap result_fmap unit_to].
    destruct (getitem header "WAVELENG") as [w|e]; [|reflexivity].
    cbn [mbind result_bind as_num].
    change (d * qc 3600) with (deg_to_arcsec d).
    rewrite deg_to_arcsec_abs_square. reflexivity.
  - intros s c Hd. split.
    + unfold get_conversion_factor, get_native_pixelscale. branches.
      rewrite (getitem_lookup _ _ _ _ Hd). reflexivity.
    + unfold PyRegistration.get_conversion_factor. branches.
      rewrite (getitem_lookup _ _ _ _ Hd). reflexivity.
Qed.

End further.

(** ** The further statements at the fixtures *)

Lemma fixture_pow_nonneg (x : Qc) : 0 ≤ @py_pow fixture_float (qc 10) x.
Proof.
  unfold py_pow, fixture_float, Qc_zpow, Qcle, Q2Qc. cbn [this].
  change (this (Qcmake 0 _)) with 0%Q.
  apply (Qle_trans _ (qc 10 ^ Qfloor x)%Q).
  - apply Qpower_0_le. vm_compute. discriminate.
  - apply Qle_lteq. right. symmetry. apply Qred_correct.
Qed.

Lemma native_pixelscale_nonneg_witness :
  ∃ q, get_native_pixelscale irac_hdr (VStr "IRAC") = Ok (VNum q) ∧ 0 ≤ q.
Proof.
  destruct (get_native_pixelscale irac_hdr (VStr "IRAC")) as [v|e] eqn:E;
    [|vm_compute in E; discriminate E].
  destruct (native_pixelscale_nonneg irac_hdr (VStr "IRAC") v)
    as [(q & -> & Hq) _]; [discriminate|exact E|].
  exists q. split; [reflexivity|exact Hq].
Defined.

Lemma conversion_factor_nonneg_witness :
  ∃ factor,
    get_conversion_factor (H := fixture_float) irac_hdr (VStr "IRAC")
    = Ok factor
    ∧ 0 ≤ factor.
Proof.
  destruct (get_conversion_factor (H := fixture_float) irac_hdr (VStr "IRAC"))
    as [factor|e] eqn:E; [|vm_compute in E; discriminate E].
  exists factor. split; [reflexivity|].
  apply (conversion_factor_nonneg (H := fixture_float) irac_hdr (VStr "IRAC")).
  - exact fixture_pow_nonneg.
  - exact E.
Defined.

Lemma ingested_wavelength_round_trip_witness :
  ∃ img w, waveleng img = Ok (VNum w).
Proof.
  destruct (ingest_file (H := fixture_float) ["data"; "s250.fits"] spire_dir)
    as [[img st']|e] eqn:E; [|vm_compute in E; discriminate E].
  destruct (ingested_wavelength_round_trip (H := fixture_float) _ _ _ _ E)
    as (w & _ & _ & Hw).
  exists img, w. exact Hw.
Defined.

Lemma ingest_without_wavelength_witness :
  ∃ img,
    ingest_file (H := fixture_float) ["data"; "b.fits"] bare_dir
    = Ok (img, emit (ReadFits ["data"; "b.fits"]) bare_dir)
    ∧ img_header img !! "WAVELENG" = Some (VNum 1, "micron").
Proof.
  destruct (ingest_without_wavelength (H := fixture_float)
              ["data"; "b.fits"] bare_dir
              (Hdu one_pixel {[ "INSTRUME" := (VStr "IRAC", "") ]}) [])
    as [Hok _]; try (vm_compute; reflexivity).
  destruct Hok as (img & Hi & Hw & _); [left; vm_compute; reflexivity|].
  exists img. split; [exact Hi|exact Hw].
Defined.

Lemma fwhm_value_in_table_witness :
  qc 30 ∈ [qc 76; qc 43; qc 37; qc 30; qc 22; qc 18; qc 13; qc 12.5;
           qc 10.5; 0].
Proof.
  apply (fwhm_value_in_table spire_set). vm_compute. reflexivity.
Defined.

Lemma instrument_dictionary_contents_witness :
  is_Some (({[ VStr "SPIRE" := [VNum (qc 250); VNum (qc 350)] ]}
            : gmap value (list value)) !! VStr "SPIRE")
  ↔ ∃ img w, img ∈ spire_set ∧ seen_as img (VStr "SPIRE") w.
Proof.
  refine (proj1 (instrument_dictionary_contents spire_set _ (VStr "SPIRE") _)).
  vm_compute. reflexivity.
Defined.

Lemma fwhm_order_independent_witness :
  get_fwhm_value (reverse spire_set) = Ok (qc 30).
Proof.
  apply (fwhm_order_independent spire_set).
  - apply Permutation_swap.
  - vm_compute. reflexivity.
Defined.

Lemma fwhm_zero_without_far_infrared_witness :
  get_fwhm_value [irac_img] = Ok 0.
Proof.
  apply fwhm_zero_without_far_infrared. constructor; [|constructor].
  exists (VStr "IRAC"), (VNum (qc 8)). split; [split|].
  - vm_compute. reflexivity.
  - exists "micron". vm_compute. reflexivity.
  - repeat split; discriminate.
Defined.

Lemma herschel_mean_of_equal_values_witness :
  get_herschel_mean [irac_img; pointed_img] "CRVAL1" = Ok (Finite (qc 10.5)).
Proof.
  apply herschel_mean_of_equal_values.
  - constructor; [|constructor; [|constructor]].
    + exists (VStr "IRAC"). split; [vm_compute; reflexivity|].
      intros [Hp|Hs]; discriminate.
    + exists (VStr "PACS"). split; [vm_compute; reflexivity|].
      intros _. exists "". vm_compute. reflexivity.
  - exists pointed_img, (VStr "PACS"). split.
    + apply list_elem_of_further, list_elem_of_here.
    + split; [vm_compute; reflexivity|]. left. reflexivity.
Defined.

Lemma herschel_mean_missing_keyword_witness :
  get_herschel_mean [spire250_img] "CRVAL1" = Raise (KeyError "CRVAL1").
Proof.
  apply herschel_mean_missing_keyword.
  - constructor; [|constructor]. exists (VStr "SPIRE").
    vm_compute. reflexivity.
  - exists spire250_img, (VStr "SPIRE"). split; [apply list_elem_of_here|].
    split; [vm_compute; reflexivity|]. split; [right; reflexivity|].
    vm_compute. reflexivity.
Defined.

Lemma register_image_grid_witness :
  ∃ st' pixelscale ncols,
    register_image (H0 := fixture_services) with_position
      (Finite (qc 10)) (Finite (qc 20)) irac_img irac_converted_dir = Ok st'
    ∧ pixelscale ≠ 0 ∧ ncols = qc 60 / pixelscale.
Proof.
  destruct (register_image (H0 := fixture_services) with_position
              (Finite (qc 10)) (Finite (qc 20)) irac_img irac_converted_dir)
    as [st'|e] eqn:E; [|vm_compute in E; discriminate E].
  destruct (register_image_grid (H0 := fixture_services) _ _ _ _ _ _ E)
    as (k & size & p & n & pre & _ & _ & Hs & Hp & Hn & _).
  injection Hs as <-. exists st', p, n. auto.
Defined.

Lemma register_images_common_reference_witness :
  ∃ st',
    register_images (H0 := fixture_services) with_position [irac_img]
      irac_converted_dir = Ok st'
    ∧ wcs_refs (log st') = [(Finite (qc 10), Finite (qc 20))].
Proof.
  destruct (register_images (H0 := fixture_services) with_position [irac_img]
              irac_converted_dir)
    as [st'|e] eqn:E; [|vm_compute in E; discriminate E].
  destruct (register_images_common_reference (H0 := fixture_services)
              _ _ _ _ E) as (lng & lat & _ & _ & Hra & Hdec & Hrefs).
  exists st'. split; [reflexivity|].
  rewrite Hrefs, (Hra (qc 10) eq_refl), (Hdec (qc 20) eq_refl). reflexivity.
Defined.

Lemma register_image_zero_pixelscale_witness :
  register_image (H0 := fixture_services) with_position NaN NaN unknown_img
    irac_dir = Raise ZeroDivisionError.
Proof.
  apply (register_image_zero_pixelscale (H0 := fixture_services)
           with_position NaN NaN unknown_img irac_dir (VStr "WFC3") (qc 60)).
  - vm_compute. reflexivity.
  - vm_compute. reflexivity.
  - vm_compute. eauto.
  - reflexivity.
Defined.

Lemma resample_images_zero_fwhm_witness :
  resample_images (H0 := fixture_services) all_stages [irac_img] irac_dir
  = Raise ZeroDivisionError.
Proof.
  apply (resample_images_zero_fwhm (H0 := fixture_services) all_stages
           [irac_img] irac_dir (qc 60)).
  - vm_compute. reflexivity.
  - reflexivity.
Defined.

Lemma convolve_image_output_witness :
  ∃ st',
    convolve_image (H0 := fixture_services) (qc 30) spire250_img
      spire_registered_dir = Ok st'
    ∧ is_Some (fs st' !! convolved spire250_img).
Proof.
  destruct (convolve_image (H0 := fixture_services) (qc 30) spire250_img
              spire_registered_dir)
    as [st'|e] eqn:E; [|vm_compute in E; discriminate E].
  destruct (convolve_image_output (H0 := fixture_services) _ _ _ _ E)
    as (k & p & primary & extensions & _ & _ & _ & _ & Hout).
  exists st'. split; [reflexivity|]. rewrite Hout. eauto.
Defined.

Lemma output_seds_table_sorted_witness :
  ∃ rows st',
    output_seds [spire250_img] spire_resampled_dir = Ok (rows, st')
    ∧ Sorted (λ a b, row_le a b = true) rows.
Proof.
  destruct (output_seds [spire250_img] spire_resampled_dir)
    as [[rows st']|e] eqn:E; [|vm_compute in E; discriminate E].
  destruct (output_seds_table_sorted _ _ _ _ E)
    as (ws & data & st1 & raw & _ & _ & _ & Hs).
  exists rows, st'. split; [reflexivity|exact Hs].
Defined.

Lemma cleanup_removes_directories_witness :
  isdir (cleanup_output_files only_cleanup irac_converted_dir)
    ["data"; "converted"] = false.
Proof.
  apply (cleanup_removes_directories only_cleanup irac_converted_dir
           "converted").
  unfold cleaned_dirs. apply list_elem_of_here.
Defined.

Lemma cleanup_frame_witness :
  fs (cleanup_output_files only_cleanup spire_dir) !! ["data"; "s250.fits"]
  = fs spire_dir !! ["data"; "s250.fits"].
Proof.
  apply (cleanup_frame only_cleanup spire_dir ["data"; "s250.fits"]).
  intros d Hd Hp. apply (prefix_app_inv ["data"] [d] ["s250.fits"]) in Hp.
  apply prefix_cons_inv_1 in Hp. subst d.
  unfold cleaned_dirs in Hd. rewrite !elem_of_cons, elem_of_nil in Hd.
  repeat (destruct Hd as [Hd|Hd]; [discriminate Hd|]). exact Hd.
Defined.

Lemma sort_by_key_stable_witness :
  ∃ images,
    py_sorted_by_key waveleng spire_set = Ok images
    ∧ filter (λ img, waveleng img = Ok (VNum (qc 250))) images
      = filter (λ img, waveleng img = Ok (VNum (qc 250))) spire_set.
Proof.
  destruct (py_sorted_by_key waveleng spire_set) as [images|e] eqn:E;
    [|vm_compute in E; discriminate E].
  exists images. split; [reflexivity|].
  apply (sort_by_key_stable _ _ _ E).
Defined.

Lemma load_images_read_only_witness :
  ∃ images st',
    load_images (H := fixture_float)
      [["data"; "s350.fits"]; ["data"; "s250.fits"]] spire_dir
    = Ok (images, st')
    ∧ fs st' = fs spire_dir.
Proof.
  destruct (load_images (H := fixture_float)
              [["data"; "s350.fits"]; ["data"; "s250.fits"]] spire_dir)
    as [[images st']|e] eqn:E; [|vm_compute in E; discriminate E].
  exists images, st'. split; [reflexivity|].
  apply (load_images_read_only (H := fixture_float) _ _ _ _ E).
Defined.

Lemma convert_image_again_witness :
  ∃ img1 st1 st2,
    convert_image (H := fixture_float) irac_img irac_dir = Ok (img1, st1)
    ∧ convert_image (H := fixture_float) img1 st1 = Ok (img1, st2)
    ∧ fs st2 = fs st1.
Proof.
  destruct (convert_image (H := fixture_float) irac_img irac_dir)
    as [[img1 st1]|e] eqn:E; [|vm_compute in E; discriminate E].
  destruct (convert_image_again (H := fixture_float) _ _ _ _ E)
    as (st2 & array & H2 & Hfs & _).
  exists img1, st1, st2. auto.
Defined.

Lemma parse_command_line_checked_witness :
  ∃ g,
    parse_command_line (H := fixture_float) always always
      [("--directory", "data"); ("--reference_image", "r.fits")] = Ok g
    ∧ always (g_directory g +:+ "/" +:+ g_main_reference_image g) = true.
Proof.
  destruct (parse_command_line (H := fixture_float) always always
              [("--directory", "data"); ("--reference_image", "r.fits")])
    as [g|e] eqn:E; [|vm_compute in E; discriminate E].
  destruct (parse_command_line_checked (H := fixture_float) _ _ _ _ E)
    as (_ & Hm & _).
  exists g. split; [reflexivity|]. apply Hm.
  vm_compute in E. injection E as <-. discriminate.
Defined.

Lemma conversion_implies_conversion_factors_witness :
  ∃ g,
    parse_command_line (H := fixture_float) always always
      [("--directory", "data"); ("--conversion", "")] = Ok g
    ∧ g_conversion_factors g = true.
Proof.
  destruct (parse_command_line (H := fixture_float) always always
              [("--directory", "data"); ("--conversion", "")])
    as [g|e] eqn:E; [|vm_compute in E; discriminate E].
  exists g. split; [reflexivity|].
  destruct (conversion_implies_conversion_factors (H := fixture_float)
              always always [("--directory", "data"); ("--conversion", "")] g)
    as [Hiff Himp]; [|exact E|].
  - repeat constructor; unfold recognised_options; cbn [fst];
      rewrite !elem_of_cons; auto 10.
  - apply Himp, Hiff. exists "". apply list_elem_of_further, list_elem_of_here.
Defined.

Lemma convolution_resets_reference_witness :
  ∃ g,
    parse_command_line (H := fixture_float) always always
      ([("--convolution_reference_image", "k.fits")]
       ++ [("--convolution", "")]) = Ok g
    ∧ g_convolution_reference_image g = "".
Proof.
  destruct (parse_command_line (H := fixture_float) always always
              ([("--convolution_reference_image", "k.fits")]
               ++ [("--convolution", "")]))
    as [g|e] eqn:E; [|vm_compute in E; discriminate E].
  exists g. split; [reflexivity|].
  apply (convolution_resets_reference (H := fixture_float) _ _ _ _ _ E).
Defined.

Lemma conversion_factor_same_outside_galex_witness :
  get_conversion_factor (H := fixture_float) irac_hdr (VStr "IRAC")
  = PyRegistration.get_conversion_factor (H := fixture_float) irac_hdr
      (VStr "IRAC")
  ∧ get_conversion_factor (H := fixture_float) spire_text_hdr (VStr "SPIRE")
    = Raise TypeError
  ∧ PyRegistration.get_conversion_factor (H := fixture_float) spire_text_hdr
      (VStr "SPIRE") = Raise ValueError.
Proof.
  split.
  - apply (conversion_factor_same_outside_galex (H := fixture_float)
             irac_hdr (VStr "IRAC")); discriminate.
  - apply (proj2 (conversion_factor_same_outside_galex (H := fixture_float)
                    spire_text_hdr (VStr "SPIRE")) "0.0016667" "").
    vm_compute. reflexivity.
Defined.
